(** * NVC vaccine lookup table: the bundle flattener and its two drivers

    A shallow embedding of [app.ts] (the bilingual variant) and of the earlier
    single-language variant of the same script, followed by the properties of
    the specification that were checked against them.

    Conventions of the embedding.
    - A JavaScript object used as a dictionary is an ordered list of
      properties ([JsObject]); [JsObj.set] reproduces the own-property order of
      ECMAScript (array-index names first, ascending, then the other names in
      creation order), because the source reads [Object.keys(..)[0]].
      Property names are ordinary data names; the accessor name [__proto__]
      is outside the model.
    - A field the source tests before use ([x && ..], [x?.y], [Array.isArray])
      is an [option]; [None] is the absent field.  The root [extension] array
      of a Concept is an [option] as well, since the JSON received at run time
      is not checked against the declared interfaces.
    - An exception is the [Throw] outcome; the drivers run in a small monad
      over the file system and the console, in which a throw keeps the files
      written so far.
    - Strings are sequences of 8-bit characters; [trim] and [toLowerCase] are
      the ASCII restrictions of the ECMAScript functions. *)

From stdpp Require Import gmap strings list fin_maps.
From Stdlib Require Import Ascii NArith Permutation.

Set Warnings "-register-all,-clear-no-such-hyp".

Local Open Scope string_scope.
Local Open Scope list_scope.

(** ** Outcomes of fallible code *)

Inductive Outcome (A : Type) : Type :=
| Ok (a : A)
| Throw (message : string).
Arguments Ok {A} a.
Arguments Throw {A} message.

Definition obind {A B} (m : Outcome A) (k : A → Outcome B) : Outcome B :=
  match m with
  | Ok a => k a
  | Throw e => Throw e
  end.

Notation "'try!' x ← m ; k" := (obind m (λ x, k))
  (at level 100, x name, m at level 50, k at level 200, right associativity).

(** [arr.forEach(f)] where the callback updates a captured variable and may
    throw: the loop stops at the first throw. *)
Fixpoint forEachM {A S} (f : S → A → Outcome S) (l : list A) (s : S) : Outcome S :=
  match l with
  | [] => Ok s
  | x :: l' => try! s' ← f s x; forEachM f l' s'
  end.

(** ** Strings: [trim], [toLowerCase], truthiness *)

Module JsString.

Definition is_space (a : ascii) : bool :=
  let n := N_of_ascii a in
  ((9 <=? n) && (n <=? 13) || (n =? 32))%N.

Fixpoint trimStart (s : string) : string :=
  match s with
  | String a r => if is_space a then trimStart r else s
  | EmptyString => EmptyString
  end.

Fixpoint rev_append (s acc : string) : string :=
  match s with
  | EmptyString => acc
  | String a r => rev_append r (String a acc)
  end.

Definition rev (s : string) : string := rev_append s EmptyString.

Definition trim (s : string) : string := rev (trimStart (rev (trimStart s))).

Definition lower (a : ascii) : ascii :=
  let n := N_of_ascii a in
  if ((65 <=? n) && (n <=? 90))%N then ascii_of_N (n + 32) else a.

Fixpoint toLowerCase (s : string) : string :=
  match s with
  | EmptyString => EmptyString
  | String a r => String (lower a) (toLowerCase r)
  end.

(** A string is truthy when it is not empty. *)
Definition truthy (s : string) : bool :=
  match s with EmptyString => false | _ => true end.

(** [a || b] on strings. *)
Definition or_else (a b : string) : string := if truthy a then a else b.

(** [a || b] where [a] may be [undefined]. *)
Definition opt_or_else (a : option string) (b : string) : string :=
  match a with
  | Some v => or_else v b
  | None => b
  end.

Definition eqb (a b : string) : bool := bool_decide (a = b).

End JsString.

(** ** Objects used as dictionaries *)

Module JsObj.

Definition JsObject (V : Type) : Type := list (string * V).

Definition is_digit (a : ascii) : bool :=
  let n := N_of_ascii a in ((48 <=? n) && (n <=? 57))%N.

Fixpoint digits_value (s : string) (acc : N) : option N :=
  match s with
  | EmptyString => Some acc
  | String a r =>
      if is_digit a then digits_value r (acc * 10 + (N_of_ascii a - 48))%N
      else None
  end.

(** The canonical numeric strings below [2^32 - 1]: the array indices. *)
Definition array_index (k : string) : option N :=
  match k with
  | EmptyString => None
  | String a r =>
      if bool_decide (a = "0"%char) && JsString.truthy r then None
      else match digits_value k 0 with
           | Some n => if (n <? 4294967295)%N then Some n else None
           | None => None
           end
  end.

Section ops.
Context {V : Type}.

Fixpoint get (k : string) (o : JsObject V) : option V :=
  match o with
  | [] => None
  | (k', v) :: r => if bool_decide (k' = k) then Some v else get k r
  end.

Definition keys (o : JsObject V) : list string := map fst o.

Fixpoint replace (k : string) (v : V) (o : JsObject V) : JsObject V :=
  match o with
  | [] => []
  | (k', v') :: r =>
    if bool_decide (k' = k) then (k, v) :: r else (k', v') :: replace k v r
  end.

Fixpoint insert_index (i : N) (k : string) (v : V) (o : JsObject V) : JsObject V :=
  match o with
  | [] => [(k, v)]
  | (k', v') :: r =>
    match array_index k' with
    | Some j => if (j <? i)%N then (k', v') :: insert_index i k v r
                else (k, v) :: o
    | None => (k, v) :: o
    end
  end.

(** [o[k] = v] *)
Definition set (k : string) (v : V) (o : JsObject V) : JsObject V :=
  match get k o with
  | Some _ => replace k v o
  | None =>
    match array_index k with
    | Some i => insert_index i k v o
    | None => o ++ [(k, v)]
    end
  end.

End ops.

End JsObj.

Import JsObj.

(** ** The FHIR data model ([interface] declarations of the source) *)

Record Coding := mkCoding {
  coding_system : string;
  coding_code : string;
  coding_display : string
}.

Record ValueCodeableConcept := mkVCC {
  coding : option (list Coding);
  text : string
}.

(** [url] is tested for truthiness before use; the empty string stands for
    an absent [url] as well. *)
Inductive Extension := mkExtension {
  url : string;
  extension : option (list Extension);
  valueCodeableConcept : option ValueCodeableConcept
}.

Record Use := mkUse {
  use_system : string;
  use_code : string;
  use_display : string
}.

Record Designation := mkDesignation {
  language : string;
  use : option Use;
  value : string
}.

Record Concept := mkConcept {
  code : string;
  display : string;
  designation : option (list Designation);
  concept_extension : option (list Extension)
}.

Record Include := mkInclude {
  include_system : string;
  include_version : string;
  concept : option (list Concept)
}.

Record Compose := mkCompose {
  include : option (list Include)
}.

Record ValueSet := mkValueSet {
  id : string;
  compose : option Compose
}.

Record Entry := mkEntry {
  fullUrl : string;
  resource : ValueSet
}.

Record Data := mkData {
  versionId : string;
  entry : list Entry
}.

(** ** [isValueSet] and its siblings *)

Definition includes (l : list string) (x : string) : bool :=
  existsb (JsString.eqb x) l.

Definition isValueSet (id : string) : bool :=
  includes ["Generic"; "Tradename"; "AntigenIgAntitoxin"] id.

Definition isValueSetDisease (id : string) : bool :=
  includes ["Disease"] id.

Definition isValueSetMAH (id : string) : bool :=
  includes ["MarketAuthorizationHolder"] id.

(** ** [getExtensionValueByUrl] *)

Definition normUrl (s : string) : string :=
  JsString.toLowerCase (JsString.trim s).

(** [extension.url && extension.url.trim().toLowerCase() ===
    targetUrl.trim().toLowerCase()] *)
Definition urlMatches (targetUrl : string) (e : Extension) : bool :=
  JsString.truthy (url e) && JsString.eqb (normUrl (url e)) (normUrl targetUrl).

(** The body of the [forEach] callback inside [findExtensions]; the inner
    fold is the recursive call [findExtensions(extension.extension)]. *)
Fixpoint findExtensions_step (targetUrl : string) (result : list Extension)
    (e : Extension) : list Extension :=
  let result := if urlMatches targetUrl e then result ++ [e] else result in
  match extension e with
  | Some children =>
      result ++ fold_left (findExtensions_step targetUrl) children []
  | None => result
  end.

Definition findExtensions (targetUrl : string) (extensions : list Extension)
    : list Extension :=
  fold_left (findExtensions_step targetUrl) extensions [].

(** [ext.valueCodeableConcept?.coding] *)
Definition codingOf (ext : Extension) : option (list Coding) :=
  match valueCodeableConcept ext with
  | Some v => coding v
  | None => None
  end.

(** The body of the second [forEach]: every coding of a matched extension is
    stored under its code. *)
Definition collect_step (valObject : JsObject string) (ext : Extension)
    : JsObject string :=
  match codingOf ext with
  | Some cs =>
      fold_left (λ o c, set (coding_code c) (coding_display c) o) cs valObject
  | None => valObject
  end.

Definition getExtensionValueByUrl (concept : Concept) (targetUrl : string)
    : Outcome (list (JsObject string)) :=
  match concept_extension concept with
  | None => Throw "TypeError: Cannot read properties of undefined (reading 'forEach')"
  | Some root =>
      let extensions := findExtensions targetUrl root in
      let valObject := fold_left collect_step extensions [] in
      Ok (if (0 <? length (keys valObject))%nat then [valObject] else [])
  end.

(** ** [getDisplayName] *)

Definition namingSystem : string :=
  "https://nvc-cnv.canada.ca/v1/NamingSystem/nvc-display-terms-designation".

(** [d.use?.code === code] and [d.use?.system === ..]: an absent [use] gives
    [undefined], which is no string. *)
Definition useCodeIs (d : Designation) (c : string) : bool :=
  match use d with Some u => JsString.eqb (use_code u) c | None => false end.

Definition useSystemIs (d : Designation) (s : string) : bool :=
  match use d with Some u => JsString.eqb (use_system u) s | None => false end.

Definition getDisplayName (concept : Concept) (lang code : string) : option string :=
  match designation concept with
  | Some ds =>
      option_map value
        (find (λ d, JsString.eqb (language d) lang && useCodeIs d code
                    && useSystemIs d namingSystem) ds)
  | None => None
  end.

(** ** Values written to the output table *)

Inductive JsValue :=
| JString (s : string)
| JArray (items : list JsValue)
| JObject (fields : list (string * JsValue)).

(** One record of the lookup table, and the table itself. *)
Abbreviation Table := (gmap string (JsObject JsValue)).

Definition ofDictionary (o : JsObject string) : JsValue :=
  JObject (map (λ kv, (kv.1, JString kv.2)) o).

(** ** The file system and the console *)

Inductive Document :=
| DocCompose (c : Compose)
| DocResult (version : string) (table : Table)
| DocVersion (v : string)
| DocOther (text : string).

Inductive ConsoleLine :=
| ConsoleLog (label : string) (ids : list string)
| ConsoleInfo (line : string)
| ConsoleError (line : string).

Record World := mkWorld {
  files : gmap string Document;
  console : list ConsoleLine
}.

Definition IO (A : Type) : Type := World → Outcome A * World.

Definition io_ret {A} (a : A) : IO A := λ w, (Ok a, w).

Definition io_bind {A B} (m : IO A) (k : A → IO B) : IO B :=
  λ w, match m w with
       | (Ok a, w') => k a w'
       | (Throw e, w') => (Throw e, w')
       end.

Definition io_lift {A} (o : Outcome A) : IO A := λ w, (o, w).

Definition io_catch {A} (m : IO A) (handler : string → IO A) : IO A :=
  λ w, match m w with
       | (Ok a, w') => (Ok a, w')
       | (Throw e, w') => handler e w'
       end.

Notation "'do!' x ← m ; k" := (io_bind m (λ x, k))
  (at level 100, x name, m at level 50, k at level 200, right associativity).
Notation "'run!' m ; k" := (io_bind m (λ _, k))
  (at level 100, m at level 50, k at level 200, right associativity).

Definition emit (l : ConsoleLine) : IO unit :=
  λ w, (Ok tt, mkWorld (files w) (console w ++ [l])).

(** [fs.readFile(path, "utf8")]: rejects when the file does not exist. *)
Definition readFile (path : string) : IO Document :=
  λ w, match files w !! path with
       | Some d => (Ok d, w)
       | None => (Throw ("ENOENT: no such file or directory, open '" ++ path ++ "'"), w)
       end.

(** [fs.writeFile(path, JSON.stringify(..), "utf8")]; writing is assumed to
    succeed. *)
Definition writeFile (path : string) (d : Document) : IO unit :=
  λ w, (Ok tt, mkWorld (<[path := d]> (files w)) (console w)).

(** [JSON.parse] of a file read back as a [compose] structure: a document of
    another shape is an object without [include]; text that is no JSON
    throws. *)
Definition parseCompose (d : Document) : Outcome Compose :=
  match d with
  | DocCompose c => Ok c
  | DocResult _ _ | DocVersion _ => Ok (mkCompose None)
  | DocOther _ => Throw "SyntaxError: Unexpected token in JSON"
  end.

(** [(JSON.parse(..) as CurrentVersion).versionId]; [None] is [undefined]. *)
Definition parseVersionId (d : Document) : Outcome (option string) :=
  match d with
  | DocVersion v => Ok (Some v)
  | DocCompose _ | DocResult _ _ => Ok None
  | DocOther _ => Throw "SyntaxError: Unexpected token in JSON"
  end.

Definition versionFilePath : string := "nvc-version.json".
Definition bundleFilePath : string := "vaccine-table/nvc-bundle.json".
Definition diseaseFilePath : string := "vaccine-table/disease.json".
Definition mahFilePath : string := "vaccine-table/mah.json".

(** The three nested loops shared by both versions of [parseNVCBundle]: the
    entries of the bundle, the includes of a recognised value set, the
    concepts of an include; [step] is the body of the innermost callback. *)
Definition forEachConcept (step : Table → Concept → Outcome Table) (data : Data)
    : Outcome Table :=
  forEachM (λ table entry,
    let resource := resource entry in
    if isValueSet (id resource) then
      match compose resource with
      | Some c =>
          match include c with
          | Some includes =>
              forEachM (λ table inc,
                match concept inc with
                | Some concepts => forEachM step concepts table
                | None => Ok table
                end) includes table
          | None => Ok table
          end
      | None => Ok table
      end
    else Ok table) (entry data) ∅.

(** ** The single-language variant *)

Module Simple.

Definition diseaseUrl : string :=
  "https://nvc-cnv.canada.ca/v1/StructureDefinition/nvc-protects-against-disease".
Definition mahUrl : string :=
  "https://nvc-cnv.canada.ca/v1/StructureDefinition/nvc-linked-to-market-authorization-holder".

(** [if (Object.keys(x).length > 0) table[code].f = x], [x] an array. *)
Definition attach (code field : string) (x : list (JsObject string)) (table : Table)
    : Table :=
  if (0 <? length x)%nat
  then alter (set field (JArray (map ofDictionary x))) code table
  else table.

Definition conceptStep (table : Table) (concept : Concept) : Outcome Table :=
  let displayName := display concept in
  try! disease ← getExtensionValueByUrl concept diseaseUrl;
  try! MAH ← getExtensionValueByUrl concept mahUrl;
  let table := <[code concept := [("displayName", JString displayName)]]> table in
  let table := attach (code concept) "disease" disease table in
  let table := attach (code concept) "MAH" MAH table in
  Ok table.

Definition parseNVCBundle (data : Data) : Outcome Table :=
  forEachConcept conceptStep data.

(** The inner [try]: the stored version, [None] when there is none. *)
Definition readCurrentVersion : IO (option string) :=
  io_catch
    (do! currentVersionData ← readFile versionFilePath;
     io_lift (parseVersionId currentVersionData))
    (λ _, run! emit (ConsoleInfo "No previous version found, will write new data.");
          io_ret None).

Definition main (response : Outcome Data) : IO unit :=
  io_catch
    (do! data ← io_lift response;
     let newVersionId := versionId data in
     do! currentVersionId ← readCurrentVersion;
     if bool_decide (currentVersionId ≠ Some newVersionId) then
       do! table ← io_lift (parseNVCBundle data);
       run! writeFile bundleFilePath (DocResult newVersionId table);
       run! writeFile versionFilePath (DocVersion newVersionId);
       emit (ConsoleInfo ("Succeessfully updated! current version is: " ++ newVersionId))
     else
       emit (ConsoleInfo ("No change! current version is: " ++ default EmptyString currentVersionId)))
    (λ message, emit (ConsoleError ("Error: " ++ message))).

End Simple.

(** ** The bilingual variant ([app.ts]) *)

Module Bilingual.

Record Names := mkNames { en : string; fr : string }.

(** [process.env.NVC_API_URL || "https://nvc-cnv.canada.ca"] *)
Definition API_URL (env : option string) : string :=
  JsString.opt_or_else env "https://nvc-cnv.canada.ca".

Definition diseaseUrl (apiUrl : string) : string :=
  apiUrl ++ "/v1/StructureDefinition/nvc-protects-against-disease".
Definition mahUrl (apiUrl : string) : string :=
  apiUrl ++ "/v1/StructureDefinition/nvc-linked-to-market-authorization-holder".

(** [getDisplayName(concept, lang, code) || concept.display] *)
Definition displayFor (concept : Concept) (lang code : string) : string :=
  JsString.opt_or_else (getDisplayName concept lang code) (display concept).

(** [codes.map(code => ({ [code]: lookup[code]?.f || code }))] *)
Definition diseaseNames (f : Names → string) (lookup : gmap string Names)
    (codes : list string) : list JsValue :=
  map (λ code, JObject [(code, JString (JsString.opt_or_else (f <$> lookup !! code) code))])
      codes.

(** [lookup[codes[0]]?.f || MAH[0][codes[0]]], or the initial empty string. *)
Definition mahName (f : Names → string) (lookup : gmap string Names)
    (MAH : list (JsObject string)) : string :=
  match MAH with
  | m0 :: _ =>
      match keys m0 with
      | c0 :: _ => JsString.opt_or_else (f <$> lookup !! c0) (default EmptyString (get c0 m0))
      | [] => EmptyString
      end
  | [] => EmptyString
  end.

Definition conceptStep (apiUrl : string) (diseaseLookup mahLookup : gmap string Names)
    (table : Table) (concept : Concept) : Outcome Table :=
  let displayEN := displayFor concept "en" "enDisplayTerm" in
  let displayFR := displayFor concept "fr" "frDisplayTerm" in
  try! disease ← getExtensionValueByUrl concept (diseaseUrl apiUrl);
  try! MAH ← getExtensionValueByUrl concept (mahUrl apiUrl);
  let codes := match disease with d0 :: _ => keys d0 | [] => [] end in
  let diseaseEN := diseaseNames en diseaseLookup codes in
  let diseaseFR := diseaseNames fr diseaseLookup codes in
  let MAHEN := mahName en mahLookup MAH in
  let MAHFR := mahName fr mahLookup MAH in
  let table :=
    <[code concept := [("displayEN", JString displayEN);
                       ("displayFR", JString displayFR);
                       ("diseaseEN", JArray diseaseEN);
                       ("diseaseFR", JArray diseaseFR)]]> table in
  Ok (if JsString.truthy MAHEN && JsString.truthy MAHFR
      then alter (λ r, set "MAHFR" (JString MAHFR) (set "MAHEN" (JString MAHEN) r))
                 (code concept) table
      else table).

Definition parseNVCBundle (apiUrl : string) (data : Data)
    (diseaseLookup mahLookup : gmap string Names) : Outcome Table :=
  forEachConcept (conceptStep apiUrl diseaseLookup mahLookup) data.

(** The last entry whose resource id satisfies [p], as the first loop of
    [main] leaves it in [diseaseResource] and [mahResource]. *)
Definition lastResource (p : string → bool) (data : Data) : option ValueSet :=
  fold_left (λ found entry, if p (id (resource entry)) then Some (resource entry) else found)
            (entry data) None.

(** [JSON.stringify(resource.compose, null, 2)] handed to [fs.writeFile]: an
    absent [compose] stringifies to [undefined], which [writeFile] rejects. *)
Definition writeCompose (path : string) (r : ValueSet) : IO unit :=
  match compose r with
  | Some c => writeFile path (DocCompose c)
  | None => io_lift (Throw "TypeError [ERR_INVALID_ARG_TYPE]: The data argument must be of type string")
  end.

(** The name selection written out in [main] for the two lookups. *)
Definition lookupName (concept : Concept) (lang code : string) : string :=
  let found :=
    match designation concept with
    | Some ds =>
        option_map value
          (find (λ d, JsString.eqb (language d) lang && useSystemIs d namingSystem
                      && useCodeIs d code) ds)
    | None => None
    end in
  JsString.opt_or_else found (display concept).

(** [data.include.forEach(include => include.concept.forEach(..))]: neither
    access is guarded. *)
Definition buildLookup (c : Compose) : Outcome (gmap string Names) :=
  match include c with
  | None => Throw "TypeError: Cannot read properties of undefined (reading 'forEach')"
  | Some includes =>
      forEachM (λ lookup inc,
        match concept inc with
        | None => Throw "TypeError: Cannot read properties of undefined (reading 'forEach')"
        | Some concepts =>
            forEachM (λ lookup concept,
              let en := lookupName concept "en" "enDisplayTerm" in
              let fr := lookupName concept "fr" "frDisplayTerm" in
              Ok (<[code concept := mkNames en fr]> lookup)) concepts lookup
        end) includes ∅
  end.

Definition readLookup (path : string) : IO (gmap string Names) :=
  do! text ← readFile path;
  do! parsed ← io_lift (parseCompose text);
  io_lift (buildLookup parsed).

(** The MAH lookup: built only when the resource was present, and emptied
    when reading it back fails. *)
Definition buildMahLookup (mahResource : option ValueSet) : IO (gmap string Names) :=
  match mahResource with
  | Some _ =>
      io_catch (readLookup mahFilePath)
        (λ message, run! emit (ConsoleError ("Error reading MAH data: " ++ message));
                    io_ret ∅)
  | None => io_ret ∅
  end.

Definition main (env : option string) (response : Outcome Data) : IO unit :=
  io_catch
    (do! data ← io_lift response;
     run! emit (ConsoleLog "Received resource IDs:" (map (λ e, id (resource e)) (entry data)));
     let diseaseResource := lastResource isValueSetDisease data in
     let mahResource := lastResource isValueSetMAH data in
     run! match diseaseResource with
          | Some r => writeCompose diseaseFilePath r
          | None => io_ret tt
          end;
     run! match mahResource with
          | Some r => writeCompose mahFilePath r
          | None => io_ret tt
          end;
     do! diseaseLookup ← readLookup diseaseFilePath;
     do! mahLookup ← buildMahLookup mahResource;
     do! table ← io_lift (parseNVCBundle (API_URL env) data diseaseLookup mahLookup);
     run! writeFile bundleFilePath (DocResult (versionId data) table);
     run! writeFile versionFilePath (DocVersion (versionId data));
     emit (ConsoleInfo ("Successfully updated! current version is: " ++ versionId data)))
    (λ message, emit (ConsoleError ("Error: " ++ message))).

End Bilingual.

(** ** Notions of the specification *)


(** Depth-first traversal in document order: a node is collected when it
    matches, and its children are searched whether it matched or not. *)
Fixpoint dfs_node (matches : Extension → bool) (e : Extension) : list Extension :=
  (if matches e then [e] else [])
  ++ match extension e with
     | Some children => flat_map (dfs_node matches) children
     | None => []
     end.

Definition dfs (matches : Extension → bool) (l : list Extension) : list Extension :=
  flat_map (dfs_node matches) l.

(** The coded values of a sequence of extensions, in order. *)
Definition codingsOf (l : list Extension) : list Coding :=
  flat_map (λ e, default [] (codingOf e)) l.

(** All (code -> display) pairs merged into one mapping, a later pair
    replacing an earlier one with the same code. *)
Definition mergedMapping (cs : list Coding) : gmap string string :=
  fold_left (λ m c, <[coding_code c := coding_display c]> m) cs ∅.


(** The dictionary denoted by an object. *)
Definition dictionary {V} (o : JsObject V) : gmap string V := list_to_map o.

(** The coded values a resolution call meets, in traversal order. *)
Definition matchedCodings (targetUrl : string) (root : list Extension) : list Coding :=
  codingsOf (findExtensions targetUrl root).





(** The Concepts of the recognised value sets, in processing order. *)
Definition conceptsOfValueSet (v : ValueSet) : list Concept :=
  match compose v with
  | Some cmp =>
      match include cmp with
      | Some incs => flat_map (λ inc, default [] (concept inc)) incs
      | None => []
      end
  | None => []
  end.

Definition processedConcepts (data : Data) : list Concept :=
  flat_map (λ e, if isValueSet (id (resource e))
                 then conceptsOfValueSet (resource e) else []) (entry data).

(** A bundle is well formed when every processed Concept has its
    [extension] array, as the [Concept] interface declares. *)
Definition wellFormed (data : Data) : Prop :=
  Forall (λ c, is_Some (concept_extension c)) (processedConcepts data).

(** The version identifier a previous run left behind, if any. *)
Definition storedVersion (w : World) : option string :=
  match files w !! versionFilePath with
  | Some (DocVersion v) => Some v
  | _ => None
  end.

(** A Designation matches a language and a use code when its language tag is
    that language and its use descriptor carries the naming system and that
    code. *)
Definition designationMatches (lang code : string) (d : Designation) : Prop :=
  language d = lang ∧
  ∃ u, use d = Some u ∧ use_system u = namingSystem ∧ use_code u = code.



(** What a resolution result holds for a code. *)
Definition resolved (r : list (JsObject string)) (k : string) : option string :=
  match r with
  | o :: _ => get k o
  | [] => None
  end.

(** ** The record a Concept contributes *)

Definition resultOrEmpty {A} (o : Outcome (list A)) : list A :=
  match o with
  | Ok r => r
  | Throw _ => []
  end.

(** A field is attached when the resolution is not empty. *)
Definition attachField (field : string) (x : list (JsObject string))
    (r : JsObject JsValue) : JsObject JsValue :=
  if (0 <? length x)%nat then set field (JArray (map ofDictionary x)) r else r.

Definition simpleRecord (c : Concept) : JsObject JsValue :=
  let disease := resultOrEmpty (getExtensionValueByUrl c Simple.diseaseUrl) in
  let MAH := resultOrEmpty (getExtensionValueByUrl c Simple.mahUrl) in
  attachField "MAH" MAH
    (attachField "disease" disease [("displayName", JString (display c))]).

Definition bilingualRecord (apiUrl : string)
    (diseaseLookup mahLookup : gmap string Bilingual.Names) (c : Concept)
    : JsObject JsValue :=
  let disease := resultOrEmpty (getExtensionValueByUrl c (Bilingual.diseaseUrl apiUrl)) in
  let MAH := resultOrEmpty (getExtensionValueByUrl c (Bilingual.mahUrl apiUrl)) in
  let codes := match disease with d0 :: _ => keys d0 | [] => [] end in
  let MAHEN := Bilingual.mahName Bilingual.en mahLookup MAH in
  let MAHFR := Bilingual.mahName Bilingual.fr mahLookup MAH in
  let r := [("displayEN", JString (Bilingual.displayFor c "en" "enDisplayTerm"));
            ("displayFR", JString (Bilingual.displayFor c "fr" "frDisplayTerm"));
            ("diseaseEN", JArray (Bilingual.diseaseNames Bilingual.en diseaseLookup codes));
            ("diseaseFR", JArray (Bilingual.diseaseNames Bilingual.fr diseaseLookup codes))] in
  if JsString.truthy MAHEN && JsString.truthy MAHFR
  then set "MAHFR" (JString MAHFR) (set "MAHEN" (JString MAHEN) r)
  else r.

(** The table after the records of a sequence of Concepts were stored in
    order. *)
Definition storeAll (record : Concept → JsObject JsValue) (cs : list Concept)
    (table : Table) : Table :=
  fold_left (λ t c, <[code c := record c]> t) cs table.

(** The lookup that the file found under a path yields. *)
Definition storedLookup (path : string) (fs : gmap string Document)
    : Outcome (gmap string Bilingual.Names) :=
  match fs !! path with
  | Some d => try! parsed ← parseCompose d; Bilingual.buildLookup parsed
  | None => Throw ("ENOENT: no such file or directory, open '" ++ path ++ "'")
  end.

(** The raw display of the first coded value of a resolution. *)
Definition firstDisplay (r : list (JsObject string)) : string :=
  match r with
  | ((_, d) :: _) :: _ => d
  | _ => EmptyString
  end.

(** The part of [Bilingual.main] that follows the writing of the lookup
    files. *)
Definition mainAfterWrites (env : option string) (data : Data)
    (mahResource : option ValueSet) : IO unit :=
  do! diseaseLookup ← Bilingual.readLookup diseaseFilePath;
  do! mahLookup ← Bilingual.buildMahLookup mahResource;
  do! table ← io_lift (Bilingual.parseNVCBundle (Bilingual.API_URL env) data
                         diseaseLookup mahLookup);
  run! writeFile bundleFilePath (DocResult (versionId data) table);
  run! writeFile versionFilePath (DocVersion (versionId data));
  emit (ConsoleInfo ("Successfully updated! current version is: " ++ versionId data)).

(** What the handler of [main] leaves after an error. *)
Definition reported (message : string) (w : World) : World :=
  mkWorld (files w) (console w ++ [ConsoleError ("Error: " ++ message)]).

(** ** Sample inputs *)

Definition coded (url code display : string) : Extension :=
  mkExtension url None (Some (mkVCC (Some [mkCoding "nvc" code display]) display)).

Definition vaccine (c d : string) (root : list Extension) : Concept :=
  mkConcept c d None (Some root).

Definition valueSet (i : string) (cs : list Concept) : Entry :=
  mkEntry ("https://nvc-cnv.canada.ca/v1/ValueSet/" ++ i)
    (mkValueSet i (Some (mkCompose (Some [mkInclude "nvc" "1" (Some cs)])))).

Definition prod_url : string := "https://nvc-cnv.canada.ca".

(** A trade name with a disease and a market authorization holder, the
    disease value set, and no MarketAuthorizationHolder value set. *)
Definition bundle_without_mah : Data :=
  mkData "2024-01"
    [valueSet "Tradename"
       [vaccine "V1" "Vaccine One"
          [coded (Bilingual.diseaseUrl prod_url) "D1" "Measles (raw)";
           coded (Bilingual.mahUrl prod_url) "M1" "Pfizer"]];
     valueSet "Disease" [vaccine "D1" "Measles" []]].

(** Two Concepts with one code, in two recognised value sets. *)
Definition bundle_with_repeat : Data :=
  mkData "2024-02"
    [valueSet "Generic" [vaccine "V1" "First" []; vaccine "V2" "Other" []];
     valueSet "Tradename" [vaccine "V1" "Second" []];
     valueSet "Disease" [vaccine "D1" "Measles" []]].



(** A matching node (URL in other case, with surrounding blanks) that has a
    matching child. *)
Definition nested_extension : Extension :=
  mkExtension " HTTPS://nvc-cnv.canada.ca/v1/StructureDefinition/NVC-protects-against-disease "
    (Some [mkExtension Simple.diseaseUrl None
             (Some (mkVCC (Some [mkCoding "s" "A" "y"; mkCoding "s" "B" "z"]) "t"))])
    (Some (mkVCC (Some [mkCoding "s" "A" "x"]) "t")).

Definition nested_concept : Concept :=
  mkConcept "V1" "Vaccine" None (Some [nested_extension]).


Definition english_designation (v : string) : Designation :=
  mkDesignation "en" (Some (mkUse namingSystem "enDisplayTerm" "English display term")) v.

(** The Concept of the first scenario of the specification. *)
Definition vaccine_alpha : Concept :=
  mkConcept "V001" "Vaccine A" (Some [english_designation "Vaccine Alpha"]) (Some []).

(** A Concept whose English designation has an empty value. *)
Definition blank_designation_concept : Concept :=
  mkConcept "V001" "Vaccine A" (Some [english_designation EmptyString]) (Some []).


(** Bundles and disks. *)

(** Nothing on disk. *)
Definition fresh_world : World := mkWorld ∅ [].


(** A bundle with neither a Disease nor a MarketAuthorizationHolder value
    set. *)
Definition bundle_without_disease : Data :=
  mkData "2024-03" [valueSet "Tradename" [vaccine "V1" "Vaccine One" []]].

(** A disk on which an earlier run left a disease file. *)
Definition world_with_stale_disease : World :=
  mkWorld {[ diseaseFilePath :=
               DocCompose (mkCompose (Some [mkInclude "nvc" "1"
                                              (Some [vaccine "D1" "Measles" []])])) ]} [].

(** ** Further notions *)

(** The nodes of a forest of extensions: its roots and, below a node, the
    nodes of its child array. *)
Inductive inForest : Extension → list Extension → Prop :=
| inForest_root e l : e ∈ l → inForest e l
| inForest_below e p children l :
    p ∈ l → extension p = Some children → inForest e children → inForest e l.

(** The message of the [TypeError] thrown by [x.forEach] on an absent [x]. *)
Definition forEachOfUndefined : string :=
  "TypeError: Cannot read properties of undefined (reading 'forEach')".

(** The Concepts of a [compose] structure, in the order in which the lookup
    builder visits them. *)
Definition lookupConcepts (c : Compose) : list Concept :=
  match include c with
  | Some incs => flat_map (λ inc, default [] (concept inc)) incs
  | None => []
  end.

(** The pair of names the lookup builder stores for a Concept. *)
Definition namesOf (c : Concept) : Bilingual.Names :=
  Bilingual.mkNames (Bilingual.displayFor c "en" "enDisplayTerm")
                    (Bilingual.displayFor c "fr" "frDisplayTerm").

(** A Tradename Concept whose MAH extension carries the code [M1]. *)
Definition pfizer_vaccine : Concept :=
  vaccine "V1" "Vaccine One"
    [coded (Bilingual.diseaseUrl prod_url) "D1" "Measles (raw)";
     coded (Bilingual.mahUrl prod_url) "M1" "Pfizer"].

(** [r] is the resource of the last entry of the bundle whose id is [i]. *)
Definition lastWithId (i : string) (data : Data) (r : ValueSet) : Prop :=
  ∃ l1 e l2,
    entry data = l1 ++ e :: l2 ∧ resource e = r ∧ id r = i ∧
    ∀ e', e' ∈ l2 → id (resource e') ≠ i.

(** A [compose] structure whose [include] array and whose [concept] arrays
    are all there. *)
Definition completeCompose (c : Compose) : Prop :=
  ∃ incs, include c = Some incs ∧ Forall (λ inc, is_Some (concept inc)) incs.

(** A disease value set with an English and a French designation. *)
Definition measles : Concept :=
  mkConcept "D1" "Measles (raw)"
    (Some [mkDesignation "fr" (Some (mkUse namingSystem "frDisplayTerm" "French display term"))
             "Rougeole";
           english_designation "Measles"])
    (Some []).

Definition disease_compose : Compose :=
  mkCompose (Some [mkInclude "nvc" "1" (Some [vaccine "D1" "Old" []; measles])]).

(** The two conditional writes at the head of [Bilingual.main]. *)
Definition writeLookupFiles (data : Data) : IO unit :=
  run! match Bilingual.lastResource isValueSetDisease data with
       | Some r => Bilingual.writeCompose diseaseFilePath r
       | None => io_ret tt
       end;
  match Bilingual.lastResource isValueSetMAH data with
  | Some r => Bilingual.writeCompose mahFilePath r
  | None => io_ret tt
  end.

(** The MAH lookup a run works with: the one the MAH file yields when the
    bundle has the resource, and the empty one otherwise. *)
Definition mahLookupFrom (mahResource : option ValueSet) (fs : gmap string Document)
    : gmap string Bilingual.Names :=
  match mahResource with
  | Some _ =>
      match storedLookup mahFilePath fs with
      | Ok lookup => lookup
      | Throw _ => ∅
      end
  | None => ∅
  end.

(** The files after the table and the version marker were written. *)
Definition published (v : string) (table : Table) (fs : gmap string Document)
    : gmap string Document :=
  <[versionFilePath := DocVersion v]> (<[bundleFilePath := DocResult v table]> fs).

(** A bundle with a trade name, the disease value set and the value set of
    the market authorization holders. *)
Definition bundle_complete : Data :=
  mkData "2024-04"
    [valueSet "Tradename" [pfizer_vaccine];
     mkEntry "urn:disease" (mkValueSet "Disease" (Some disease_compose));
     valueSet "MarketAuthorizationHolder" [vaccine "M1" "Pfizer Canada" []]].

(** The files after the lookup files were written for the resources the
    bundle has. *)
Definition lookupsWritten (data : Data) (fs : gmap string Document)
    : gmap string Document :=
  let fs := match Bilingual.lastResource isValueSetDisease data ≫= compose with
            | Some cd => <[diseaseFilePath := DocCompose cd]> fs
            | None => fs
            end in
  match Bilingual.lastResource isValueSetMAH data ≫= compose with
  | Some cm => <[mahFilePath := DocCompose cm]> fs
  | None => fs
  end.

(** The line [main] logs first. *)
Definition receivedIds (data : Data) : ConsoleLine :=
  ConsoleLog "Received resource IDs:" (map (λ e, id (resource e)) (entry data)).

(** A bundle whose MAH value set has no [include] array, and one whose
    Disease value set has none. *)
Definition bundle_bad_mah : Data :=
  mkData "2024-05"
    [valueSet "Tradename" [pfizer_vaccine];
     mkEntry "urn:disease" (mkValueSet "Disease" (Some disease_compose));
     mkEntry "urn:mah" (mkValueSet "MarketAuthorizationHolder" (Some (mkCompose None)))].

Definition bundle_bad_disease : Data :=
  mkData "2024-06"
    [valueSet "Tradename" [pfizer_vaccine];
     mkEntry "urn:disease" (mkValueSet "Disease" (Some (mkCompose None)))].

(** * Properties *)

(** ** Induction on extension trees *)

Lemma Extension_tree_ind (P : Extension → Prop) :
  (∀ u v, P (mkExtension u None v)) →
  (∀ u l v, Forall P l → P (mkExtension u (Some l) v)) →
  ∀ e, P e.
Proof.
  intros Hleaf Hnode.
  fix IH 1. intros [u [l|] v].
  - apply Hnode. induction l as [|x l IHl]; constructor; [apply IH | exact IHl].
  - apply Hleaf.
Qed.

(** ** Objects *)

Section object_facts.
Context {V : Type}.
Implicit Types (o : JsObject V) (k : string) (v : V).

Lemma get_replace k v o k' :
  get k' (replace k v o) =
  if decide (k' = k) then (λ _, v) <$> get k o else get k' o.
Proof.
  induction o as [|[k0 v0] o IH]; simpl; [by case_decide|].
  repeat case_bool_decide; simpl; repeat case_bool_decide;
    rewrite ?IH; repeat case_decide; simplify_eq; done.
Qed.

Lemma get_insert_index i k v o k' :
  get k o = None →
  get k' (insert_index i k v o) = if decide (k' = k) then Some v else get k' o.
Proof.
  induction o as [|[k0 v0] o IH]; simpl; intros Hget.
  - repeat case_bool_decide; repeat case_decide; simplify_eq; done.
  - case_bool_decide; [done|].
    destruct (array_index k0) as [j|]; [destruct (j <? i)%N|]; simpl;
      rewrite ?IH by done;
      repeat case_bool_decide; repeat case_decide; simplify_eq; done.
Qed.

Lemma get_app_new k v o k' :
  get k o = None →
  get k' (o ++ [(k, v)]) = if decide (k' = k) then Some v else get k' o.
Proof.
  induction o as [|[k0 v0] o IH]; simpl; intros Hget.
  - repeat case_bool_decide; repeat case_decide; simplify_eq; done.
  - case_bool_decide; [done|]. rewrite IH by done.
    repeat case_bool_decide; repeat case_decide; simplify_eq; done.
Qed.

(** Reading a property after an assignment. *)
Lemma get_set k v o k' :
  get k' (set k v o) = if decide (k' = k) then Some v else get k' o.
Proof.
  unfold set. destruct (get k o) as [x|] eqn:Hget.
  - rewrite get_replace, Hget. by case_decide.
  - destruct (array_index k); [by apply get_insert_index | by apply get_app_new].
Qed.

Lemma set_not_nil k v o : set k v o ≠ [].
Proof.
  unfold set. destruct (get k o) eqn:Hget.
  - destruct o as [|[a b] o']; [done|]. simpl. by case_bool_decide.
  - destruct (array_index k).
    + destruct o as [|[a b] o']; [done|]. simpl.
      destruct (array_index a); [case_match|]; done.
    + by destruct o.
Qed.

Lemma lookup_dictionary o k : dictionary o !! k = get k o.
Proof.
  unfold dictionary. induction o as [|[k0 v0] o IH]; simpl; [done|].
  case_bool_decide as Hk.
  - subst. by rewrite lookup_insert_eq.
  - by rewrite lookup_insert_ne.
Qed.

Lemma dictionary_set k v o : dictionary (set k v o) = <[k := v]> (dictionary o).
Proof.
  apply map_eq; intros k'. rewrite lookup_dictionary, get_set.
  case_decide as Hk.
  - subst. by rewrite lookup_insert_eq.
  - by rewrite lookup_insert_ne, lookup_dictionary.
Qed.

Lemma dictionary_nil_iff o : dictionary o = ∅ ↔ o = [].
Proof.
  split; [|by intros ->].
  destruct o as [|[k0 v0] o]; [done|]. unfold dictionary; simpl.
  intros H. by apply insert_non_empty in H.
Qed.

Lemma keys_in_iff o k : k ∈ keys o ↔ is_Some (get k o).
Proof.
  rewrite <- lookup_dictionary. unfold keys, dictionary.
  rewrite <- elem_of_dom, dom_list_to_map_L, elem_of_list_to_set. done.
Qed.

Lemma keys_replace k v o : keys (replace k v o) = keys o.
Proof.
  induction o as [|[k0 v0] o IH]; simpl; [done|].
  case_bool_decide; simpl; [by subst|by rewrite IH].
Qed.

Lemma keys_insert_index i k v o : keys (insert_index i k v o) ≡ₚ k :: keys o.
Proof.
  induction o as [|[k0 v0] o IH]; simpl; [done|].
  destruct (array_index k0) as [j|]; [destruct (j <? i)%N|]; simpl; [|done..].
  rewrite IH. apply Permutation_swap.
Qed.

(** An assignment keeps the property names of an object distinct. *)
Lemma keys_set_NoDup k v o : NoDup (keys o) → NoDup (keys (set k v o)).
Proof.
  intros Hnd. unfold set. destruct (get k o) as [x|] eqn:Hget.
  - by rewrite keys_replace.
  - assert (Hfresh : k ∉ keys o).
    { rewrite keys_in_iff, Hget. by intros [? ?]. }
    destruct (array_index k).
    + rewrite keys_insert_index. by apply NoDup_cons.
    + unfold keys. rewrite map_app. simpl.
      apply NoDup_app. split; [done|]. split; [|apply NoDup_singleton].
      intros k' Hk' ->%list_elem_of_singleton. done.
Qed.

(** Array-index names come first, in ascending order; the other names keep
    the order of their creation, and a second assignment keeps the place of
    the first. *)
Example set_property_order :
  keys (set "B" "again" (set "5" "e" (set "B" "b" (set "10" "c" (set "07" "d" [])))))
  = ["5"; "10"; "07"; "B"].
Proof. vm_compute. reflexivity. Qed.

End object_facts.

(** ** The extension resolver *)

Lemma fold_findExtensions_step targetUrl (l : list Extension) :
  Forall (λ e, ∀ acc, findExtensions_step targetUrl acc e
                      = acc ++ dfs_node (urlMatches targetUrl) e) l →
  ∀ acc, fold_left (findExtensions_step targetUrl) l acc
         = acc ++ flat_map (dfs_node (urlMatches targetUrl)) l.
Proof.
  induction 1 as [|e l He _ IH]; intros acc; simpl.
  - by rewrite app_nil_r.
  - by rewrite He, IH, <- app_assoc.
Qed.

Lemma findExtensions_step_dfs targetUrl e :
  ∀ acc, findExtensions_step targetUrl acc e
         = acc ++ dfs_node (urlMatches targetUrl) e.
Proof.
  induction e as [u v|u l v IH] using Extension_tree_ind; intros acc; simpl.
  - destruct (urlMatches _ _); simpl; by rewrite ?app_nil_r.
  - rewrite (fold_findExtensions_step _ _ IH). simpl.
    destruct (urlMatches _ _); simpl; by rewrite <- ?app_assoc.
Qed.

(** The search of the source is the depth-first traversal. *)
Lemma findExtensions_dfs targetUrl l :
  findExtensions targetUrl l = dfs (urlMatches targetUrl) l.
Proof.
  unfold findExtensions, dfs. rewrite fold_findExtensions_step; [done|].
  apply Forall_forall. intros e _. apply findExtensions_step_dfs.
Qed.

Lemma dictionary_fold_set (cs : list Coding) (o : JsObject string) :
  dictionary (fold_left (λ o c, set (coding_code c) (coding_display c) o) cs o)
  = fold_left (λ m c, <[coding_code c := coding_display c]> m) cs (dictionary o).
Proof.
  revert o. induction cs as [|c cs IH]; intros o; simpl; [done|].
  by rewrite IH, dictionary_set.
Qed.

Lemma dictionary_collect (exts : list Extension) (o : JsObject string) :
  dictionary (fold_left collect_step exts o)
  = fold_left (λ m c, <[coding_code c := coding_display c]> m)
              (codingsOf exts) (dictionary o).
Proof.
  revert o. induction exts as [|e exts IH]; intros o; simpl; [done|].
  rewrite IH. unfold codingsOf at 2; simpl. rewrite fold_left_app.
  unfold collect_step. destruct (codingOf e) as [cs|]; simpl; [|done].
  by rewrite dictionary_fold_set.
Qed.

Lemma fold_set_nil (cs : list Coding) (o : JsObject string) :
  fold_left (λ o c, set (coding_code c) (coding_display c) o) cs o = [] ↔
  o = [] ∧ cs = [].
Proof.
  revert o. induction cs as [|c cs IH]; intros o; simpl; [naive_solver|].
  rewrite IH. split; [intros [H _]; by apply set_not_nil in H | naive_solver].
Qed.

Lemma collect_nil (exts : list Extension) (o : JsObject string) :
  fold_left collect_step exts o = [] ↔ o = [] ∧ codingsOf exts = [].
Proof.
  revert o. induction exts as [|e exts IH]; intros o; simpl; [naive_solver|].
  rewrite IH. unfold codingsOf; simpl. fold (codingsOf exts).
  unfold collect_step. destruct (codingOf e) as [cs|]; simpl.
  - rewrite fold_set_nil. split.
    + intros [[-> ->] ->]. done.
    + intros [-> [-> ->]%app_eq_nil]. done.
  - done.
Qed.

(** What one call returns when the root array is there: nothing when no
    coded value was met, and otherwise one object whose dictionary is the
    merge of the coded values met. *)
Lemma getExtensionValueByUrl_present concept targetUrl root :
  concept_extension concept = Some root →
  ∃ r, getExtensionValueByUrl concept targetUrl = Ok r ∧
       match matchedCodings targetUrl root with
       | [] => r = []
       | cs => ∃ o, r = [o] ∧ dictionary o = mergedMapping cs
       end.
Proof.
  intros Hroot. unfold getExtensionValueByUrl. rewrite Hroot.
  eexists; split; [done|]. unfold matchedCodings.
  set (exts := findExtensions targetUrl root).
  pose proof (collect_nil exts []) as Hnil.
  pose proof (dictionary_collect exts []) as Hdict.
  destruct (fold_left collect_step exts []) as [|kv o] eqn:Hfold.
  - simpl. destruct Hnil as [Hnil _]. destruct (Hnil eq_refl) as [_ ->]. done.
  - destruct (codingsOf exts) as [|c cs] eqn:Hcs.
    + destruct Hnil as [_ Hnil]. by specialize (Hnil (conj eq_refl eq_refl)).
    + simpl. eexists; split; [done|]. exact Hdict.
Qed.







Lemma collect_codings (exts : list Extension) (o : JsObject string) :
  fold_left collect_step exts o
  = fold_left (λ o c, set (coding_code c) (coding_display c) o) (codingsOf exts) o.
Proof.
  revert o. induction exts as [|e exts IH]; intros o; simpl; [done|].
  rewrite IH. unfold codingsOf at 2; simpl. rewrite fold_left_app.
  unfold collect_step. by destruct (codingOf e).
Qed.

(** The result of a call is a function of the coded values met. *)
Lemma getExtensionValueByUrl_codings concept targetUrl root :
  concept_extension concept = Some root →
  getExtensionValueByUrl concept targetUrl =
  Ok (let valObject :=
        fold_left (λ o c, set (coding_code c) (coding_display c) o)
                  (matchedCodings targetUrl root) [] in
      if (0 <? length (keys valObject))%nat then [valObject] else []).
Proof.
  intros Hroot. unfold getExtensionValueByUrl. rewrite Hroot. simpl.
  by rewrite collect_codings.
Qed.






(** ** Display selection *)

Lemma designationMatches_bool lang code d :
  JsString.eqb (language d) lang && useCodeIs d code && useSystemIs d namingSystem
  = true ↔ designationMatches lang code d.
Proof.
  unfold designationMatches, useCodeIs, useSystemIs, JsString.eqb.
  rewrite !andb_true_iff. destruct (use d) as [u|].
  - rewrite !bool_decide_eq_true. naive_solver.
  - rewrite bool_decide_eq_true. naive_solver.
Qed.

Lemma find_first {A} (f : A → bool) pre d post :
  f d = true → (∀ x, x ∈ pre → f x = false) →
  find f (pre ++ d :: post) = Some d.
Proof.
  intros Hd. induction pre as [|x pre IH]; intros Hpre; simpl.
  - by rewrite Hd.
  - rewrite (Hpre x) by left. apply IH. intros y Hy. apply Hpre. by right.
Qed.

Lemma find_none {A} (f : A → bool) l :
  (∀ x, x ∈ l → f x = false) → find f l = None.
Proof.
  induction l as [|x l IH]; intros Hl; simpl; [done|].
  rewrite (Hl x) by left. apply IH. intros y Hy. apply Hl. by right.
Qed.

Lemma not_true_false (b : bool) : ¬ (b = true) → b = false.
Proof. by destruct b. Qed.

(** C5, as amended: the display selected for a language and use code is the
    value of the first Designation that matches the language, the naming
    system and the use code, when that value is not empty; it is the raw
    display of the Concept when that value is empty, and when no Designation
    matches all the conditions. *)
Theorem displayFor_exact_match concept lang code :
  (∀ pre d post,
     designation concept = Some (pre ++ d :: post) →
     designationMatches lang code d →
     (∀ x, x ∈ pre → ¬ designationMatches lang code x) →
     Bilingual.displayFor concept lang code
     = if JsString.truthy (value d) then value d else display concept) ∧
  ((∀ ds d, designation concept = Some ds → d ∈ ds →
            ¬ designationMatches lang code d) →
   Bilingual.displayFor concept lang code = display concept).
Proof.
  unfold Bilingual.displayFor, getDisplayName. split.
  - intros pre d post -> Hd Hpre.
    rewrite (find_first _ pre d post).
    + done.
    + by apply designationMatches_bool.
    + intros x Hx. apply not_true_false.
      rewrite designationMatches_bool. by apply Hpre.
  - intros Hnone. destruct (designation concept) as [ds|]; [|done].
    rewrite find_none; [done|].
    intros x Hx. apply not_true_false.
    rewrite designationMatches_bool. by apply (Hnone ds).
Qed.

Lemma displayFor_exact_match_witness :
  Bilingual.displayFor vaccine_alpha "en" "enDisplayTerm" = "Vaccine Alpha" ∧
  Bilingual.displayFor vaccine_alpha "fr" "frDisplayTerm" = "Vaccine A".
Proof.
  split.
  - apply (proj1 (displayFor_exact_match vaccine_alpha "en" "enDisplayTerm")
             [] (english_designation "Vaccine Alpha") []).
    + reflexivity.
    + split; [reflexivity|]. eexists. repeat split; reflexivity.
    + intros x Hx. inversion Hx.
  - apply (proj2 (displayFor_exact_match vaccine_alpha "fr" "frDisplayTerm")).
    intros ds d Hds Hd [Hlang _]. injection Hds as <-.
    apply list_elem_of_singleton in Hd. subst d. discriminate Hlang.
Defined.

(** C5 as stated fails when the matching Designation has an empty value:
    a Designation matches every condition, and the raw display is returned
    all the same. *)
Lemma displayFor_blank_value_counterexample :
  designation blank_designation_concept = Some [english_designation EmptyString] ∧
  designationMatches "en" "enDisplayTerm" (english_designation EmptyString) ∧
  Bilingual.displayFor blank_designation_concept "en" "enDisplayTerm" = "Vaccine A" ∧
  value (english_designation EmptyString) ≠ "Vaccine A".
Proof.
  split; [reflexivity|]. split.
  - split; [reflexivity|]. eexists. repeat split; reflexivity.
  - split; [reflexivity|discriminate].
Qed.

(** ** The flattener *)

Lemma forEachM_app {A S} (f : S → A → Outcome S) l1 l2 s :
  forEachM f (l1 ++ l2) s = obind (forEachM f l1 s) (forEachM f l2).
Proof.
  revert s. induction l1 as [|x l1 IH]; intros s; simpl; [done|].
  destruct (f s x); simpl; [apply IH|done].
Qed.

Lemma forEachM_flat_map {A B S} (f : S → B → Outcome S) (g : A → list B) l s :
  forEachM (λ s a, forEachM f (g a) s) l s = forEachM f (flat_map g l) s.
Proof.
  revert s. induction l as [|a l IH]; intros s; simpl; [done|].
  rewrite forEachM_app. destruct (forEachM f (g a) s); simpl; [apply IH|done].
Qed.

Lemma forEachM_ext {A S} (f g : S → A → Outcome S) l s :
  (∀ s a, f s a = g s a) → forEachM f l s = forEachM g l s.
Proof.
  intros Hfg. revert s. induction l as [|a l IH]; intros s; simpl; [done|].
  rewrite Hfg. destruct (g s a); simpl; [apply IH|done].
Qed.

(** The nested loops visit the processed Concepts in order. *)
Lemma forEachConcept_flat step data :
  forEachConcept step data = forEachM step (processedConcepts data) ∅.
Proof.
  unfold forEachConcept, processedConcepts.
  rewrite <- forEachM_flat_map. apply forEachM_ext. intros t e.
  unfold conceptsOfValueSet.
  destruct (isValueSet _); [|done].
  destruct (compose _) as [c|]; [|done].
  destruct (include c) as [incs|]; [|done].
  rewrite <- forEachM_flat_map. apply forEachM_ext. intros t' inc.
  by destruct (concept inc).
Qed.

Lemma forEachM_storeAll (step : Table → Concept → Outcome Table) record cs table :
  (∀ t c, is_Some (concept_extension c) → step t c = Ok (<[code c := record c]> t)) →
  Forall (λ c, is_Some (concept_extension c)) cs →
  forEachM step cs table = Ok (storeAll record cs table).
Proof.
  intros Hstep Hcs. revert table.
  induction Hcs as [|c cs Hc _ IH]; intros table; simpl; [done|].
  rewrite Hstep by done. simpl. apply IH.
Qed.

Lemma alter_insert_same {V} (f : V → V) (k : string) (v : V) (m : gmap string V) :
  alter f k (<[k := v]> m) = <[k := f v]> m.
Proof.
  apply map_eq. intros k'. destruct (decide (k = k')) as [->|Hne].
  - by rewrite lookup_alter_eq, !lookup_insert_eq.
  - by rewrite lookup_alter_ne, !lookup_insert_ne.
Qed.

Lemma attach_insert k field x r (table : Table) :
  Simple.attach k field x (<[k := r]> table) = <[k := attachField field x r]> table.
Proof.
  unfold Simple.attach, attachField. destruct (0 <? length x)%nat; [|done].
  apply alter_insert_same.
Qed.

Lemma simple_conceptStep_record table c :
  is_Some (concept_extension c) →
  Simple.conceptStep table c = Ok (<[code c := simpleRecord c]> table).
Proof.
  intros [root Hroot]. unfold Simple.conceptStep, simpleRecord.
  destruct (getExtensionValueByUrl_present c Simple.diseaseUrl root Hroot)
    as (disease & -> & _).
  destruct (getExtensionValueByUrl_present c Simple.mahUrl root Hroot)
    as (MAH & -> & _).
  cbn [obind]. by rewrite (attach_insert _ "disease"), (attach_insert _ "MAH").
Qed.

Lemma bilingual_conceptStep_record apiUrl dl ml table c :
  is_Some (concept_extension c) →
  Bilingual.conceptStep apiUrl dl ml table c
  = Ok (<[code c := bilingualRecord apiUrl dl ml c]> table).
Proof.
  intros [root Hroot]. unfold Bilingual.conceptStep, bilingualRecord.
  destruct (getExtensionValueByUrl_present c (Bilingual.diseaseUrl apiUrl) root Hroot)
    as (disease & -> & _).
  destruct (getExtensionValueByUrl_present c (Bilingual.mahUrl apiUrl) root Hroot)
    as (MAH & -> & _).
  cbn [obind]. destruct (_ && _); [|done].
  by rewrite alter_insert_same.
Qed.

(** On a well-formed bundle both flatteners return the table in which the
    records of the processed Concepts were stored in order. *)
Lemma simple_parseNVCBundle_storeAll data :
  wellFormed data →
  Simple.parseNVCBundle data = Ok (storeAll simpleRecord (processedConcepts data) ∅).
Proof.
  intros Hwf. unfold Simple.parseNVCBundle. rewrite forEachConcept_flat.
  apply forEachM_storeAll; [|done].
  intros t c Hc. by apply simple_conceptStep_record.
Qed.

Lemma bilingual_parseNVCBundle_storeAll apiUrl data dl ml :
  wellFormed data →
  Bilingual.parseNVCBundle apiUrl data dl ml
  = Ok (storeAll (bilingualRecord apiUrl dl ml) (processedConcepts data) ∅).
Proof.
  intros Hwf. unfold Bilingual.parseNVCBundle. rewrite forEachConcept_flat.
  apply forEachM_storeAll; [|done].
  intros t c Hc. by apply bilingual_conceptStep_record.
Qed.









Ltac solve_wellFormed :=
  unfold wellFormed;
  match goal with
  | |- Forall _ ?l => let l' := eval vm_compute in l in change l with l'
  end;
  repeat (apply List.Forall_cons; [eexists; reflexivity|]); apply List.Forall_nil.


Lemma bundle_with_repeat_wellFormed : wellFormed bundle_with_repeat.
Proof. solve_wellFormed. Defined.




(** ** The fields of a record *)

Lemma get_attachField k field x r :
  get k (attachField field x r) =
  if decide (k = field)
  then match x with
       | [] => get k r
       | _ => Some (JArray (map ofDictionary x))
       end
  else get k r.
Proof.
  unfold attachField. destruct x as [|o x]; simpl.
  - by case_decide.
  - apply get_set.
Qed.

(** C2, as amended: the record of a Concept always carries its display
    name(s).  In the single-language variant it carries [disease] and [MAH]
    exactly when the resolution of that extension returned an entry, and
    the field is left out otherwise.  In the bilingual variant [diseaseEN]
    and [diseaseFR] are always there, as empty arrays when the disease
    extension did not resolve, and [MAHEN] and [MAHFR] are left out when
    the MAH extension did not resolve. *)
Theorem conceptStep_fields apiUrl dl ml table c root :
  concept_extension c = Some root →
  (∃ disease MAH rec,
     getExtensionValueByUrl c Simple.diseaseUrl = Ok disease ∧
     getExtensionValueByUrl c Simple.mahUrl = Ok MAH ∧
     Simple.conceptStep table c = Ok (<[code c := rec]> table) ∧
     get "displayName" rec = Some (JString (display c)) ∧
     get "disease" rec
     = match disease with
       | [] => None
       | _ => Some (JArray (map ofDictionary disease))
       end ∧
     get "MAH" rec
     = match MAH with
       | [] => None
       | _ => Some (JArray (map ofDictionary MAH))
       end) ∧
  (∃ disease MAH rec,
     getExtensionValueByUrl c (Bilingual.diseaseUrl apiUrl) = Ok disease ∧
     getExtensionValueByUrl c (Bilingual.mahUrl apiUrl) = Ok MAH ∧
     Bilingual.conceptStep apiUrl dl ml table c = Ok (<[code c := rec]> table) ∧
     get "displayEN" rec = Some (JString (Bilingual.displayFor c "en" "enDisplayTerm")) ∧
     get "displayFR" rec = Some (JString (Bilingual.displayFor c "fr" "frDisplayTerm")) ∧
     is_Some (get "diseaseEN" rec) ∧ is_Some (get "diseaseFR" rec) ∧
     (disease = [] →
      get "diseaseEN" rec = Some (JArray []) ∧ get "diseaseFR" rec = Some (JArray [])) ∧
     (MAH = [] → get "MAHEN" rec = None ∧ get "MAHFR" rec = None)).
Proof.
  intros Hroot. split.
  - destruct (getExtensionValueByUrl_present c Simple.diseaseUrl root Hroot)
      as (disease & Hd & _).
    destruct (getExtensionValueByUrl_present c Simple.mahUrl root Hroot)
      as (MAH & Hm & _).
    exists disease, MAH, (simpleRecord c).
    split; [done|]. split; [done|].
    split; [by apply simple_conceptStep_record|].
    unfold simpleRecord. rewrite Hd, Hm. simpl.
    rewrite !get_attachField. simpl. by destruct disease, MAH.
  - destruct (getExtensionValueByUrl_present c (Bilingual.diseaseUrl apiUrl) root Hroot)
      as (disease & Hd & _).
    destruct (getExtensionValueByUrl_present c (Bilingual.mahUrl apiUrl) root Hroot)
      as (MAH & Hm & _).
    exists disease, MAH, (bilingualRecord apiUrl dl ml c).
    split; [done|]. split; [done|].
    split; [by apply bilingual_conceptStep_record|].
    unfold bilingualRecord. rewrite Hd, Hm. cbn [resultOrEmpty].
    destruct (_ && _) eqn:Hattach.
    + rewrite !get_set. simpl.
      split; [done|]. split; [done|]. split; [eauto|]. split; [eauto|].
      split; [by intros ->|]. intros ->. by simpl in Hattach.
    + simpl.
      split; [done|]. split; [done|]. split; [eauto|]. split; [eauto|].
      split; by intros ->.
Qed.

Lemma conceptStep_fields_witness :
  ∃ rec,
    Bilingual.conceptStep prod_url ∅ ∅ ∅ vaccine_alpha = Ok {[ "V001" := rec ]} ∧
    get "displayEN" rec = Some (JString "Vaccine Alpha") ∧
    get "displayFR" rec = Some (JString "Vaccine A").
Proof.
  destruct (conceptStep_fields prod_url ∅ ∅ ∅ vaccine_alpha [] eq_refl)
    as [_ (disease & MAH & rec & _ & _ & Hstep & Hen & Hfr & _)].
  exists rec. split; [exact Hstep|]. split; [exact Hen|exact Hfr].
Defined.

(** C2 as stated fails in the bilingual variant: for a Concept whose disease
    extension does not resolve, the record carries [diseaseEN] and
    [diseaseFR] as empty arrays. *)
Lemma conceptStep_empty_disease_counterexample :
  getExtensionValueByUrl vaccine_alpha (Bilingual.diseaseUrl prod_url) = Ok [] ∧
  Bilingual.conceptStep prod_url ∅ ∅ ∅ vaccine_alpha
  = Ok {[ "V001" := [("displayEN", JString "Vaccine Alpha");
                     ("displayFR", JString "Vaccine A");
                     ("diseaseEN", JArray []);
                     ("diseaseFR", JArray [])] ]}.
Proof. split; vm_compute; reflexivity. Qed.

(** ** Order of siblings *)



Section merging.
Implicit Types (cs : list Coding) (m : gmap string string).

Local Notation ins := (λ m (c : Coding), <[coding_code c := coding_display c]> m).


Lemma merge_lookup_elem cs m k d :
  fold_left ins cs m !! k = Some d →
  (∃ c, c ∈ cs ∧ coding_code c = k ∧ coding_display c = d) ∨ m !! k = Some d.
Proof.
  revert m. induction cs as [|c cs IH]; intros m; simpl; [by right|].
  intros [(c' & Hc' & Hk)|Hm]%IH.
  - left. exists c'. split; [by right|done].
  - apply lookup_insert_Some in Hm as [[<- <-]|[_ Hm]].
    + left. exists c. split; [left|done].
    + by right.
Qed.





End merging.

(** What a result holds for a code is what the merge of the coded values
    met holds for it. *)
Lemma getExtensionValueByUrl_resolved concept targetUrl root :
  concept_extension concept = Some root →
  ∃ r, getExtensionValueByUrl concept targetUrl = Ok r ∧
       (r = [] ↔ matchedCodings targetUrl root = []) ∧
       ∀ k, resolved r k = mergedMapping (matchedCodings targetUrl root) !! k.
Proof.
  intros Hroot.
  destruct (getExtensionValueByUrl_present concept targetUrl root Hroot)
    as (r & Hr & Hshape).
  exists r. split; [done|].
  destruct (matchedCodings targetUrl root) as [|c cs].
  - subst r. split; [done|]. intros k. simpl.
    unfold mergedMapping. simpl. by rewrite lookup_empty.
  - destruct Hshape as (o & -> & Ho). split; [done|].
    intros k. simpl. by rewrite <- Ho, lookup_dictionary.
Qed.




(** ** The version gate of the single-language variant *)

Lemma readCurrentVersion_stored w :
  ∃ lines, Simple.readCurrentVersion w
           = (Ok (storedVersion w), mkWorld (files w) (console w ++ lines)).
Proof.
  unfold Simple.readCurrentVersion, storedVersion, io_catch, io_bind, readFile,
    io_lift, io_ret, emit.
  destruct w as [fs out]; simpl.
  destruct (fs !! versionFilePath) as [[| | |]|]; simpl;
    try (exists []; by rewrite app_nil_r); eexists; reflexivity.
Qed.



(** ** The run of the bilingual variant *)

Lemma writeCompose_run path r w :
  Bilingual.writeCompose path r w =
  match compose r with
  | Some c => (Ok tt, mkWorld (<[path := DocCompose c]> (files w)) (console w))
  | None => (Throw "TypeError [ERR_INVALID_ARG_TYPE]: The data argument must be of type string", w)
  end.
Proof. unfold Bilingual.writeCompose. by destruct (compose r). Qed.

Lemma readLookup_run path w :
  Bilingual.readLookup path w = (storedLookup path (files w), w).
Proof.
  unfold Bilingual.readLookup, storedLookup, io_bind, readFile, io_lift.
  destruct (files w !! path) as [d|]; [|done].
  by destruct (parseCompose d).
Qed.

(** Building the MAH lookup never throws and writes no file; without the
    resource the lookup is empty. *)
Lemma buildMahLookup_run r w :
  ∃ ml lines,
    Bilingual.buildMahLookup r w = (Ok ml, mkWorld (files w) (console w ++ lines)) ∧
    (r = None → ml = ∅ ∧ lines = []).
Proof.
  destruct w as [fs out]. destruct r as [v|]; simpl.
  - unfold io_catch. rewrite readLookup_run. simpl.
    destruct (storedLookup mahFilePath fs) as [ml|e].
    + exists ml, []. by rewrite app_nil_r.
    + eexists ∅, _. unfold io_bind, emit, io_ret. simpl. done.
  - exists ∅, []. unfold io_ret. by rewrite app_nil_r.
Qed.

Lemma storedLookup_insert_ne path path' d fs :
  path' ≠ path → storedLookup path (<[path' := d]> fs) = storedLookup path fs.
Proof. intros Hne. unfold storedLookup. by rewrite lookup_insert_ne. Qed.

Lemma mainAfterWrites_run env data mahResource w :
  ∃ ml lines,
    (mahResource = None → ml = ∅) ∧
    mainAfterWrites env data mahResource w =
    match storedLookup diseaseFilePath (files w) with
    | Throw e => (Throw e, w)
    | Ok dl =>
        match Bilingual.parseNVCBundle (Bilingual.API_URL env) data dl ml with
        | Throw e => (Throw e, mkWorld (files w) (console w ++ lines))
        | Ok table =>
            (Ok tt,
             mkWorld (<[versionFilePath := DocVersion (versionId data)]>
                        (<[bundleFilePath := DocResult (versionId data) table]> (files w)))
                     ((console w ++ lines)
                      ++ [ConsoleInfo ("Successfully updated! current version is: "
                                       ++ versionId data)]))
        end
    end.
Proof.
  destruct (buildMahLookup_run mahResource w) as (ml & lines & Hml & Hnone).
  exists ml, lines. split; [naive_solver|].
  unfold mainAfterWrites, io_bind. rewrite readLookup_run.
  destruct (storedLookup diseaseFilePath (files w)) as [dl|e]; [|done].
  rewrite Hml. unfold io_lift.
  by destruct (Bilingual.parseNVCBundle _ _ _ _).
Qed.

Lemma main_split env data w :
  Bilingual.main env (Ok data) w =
  io_catch
    (run! emit (ConsoleLog "Received resource IDs:"
                  (map (λ e, id (resource e)) (entry data)));
     run! match Bilingual.lastResource isValueSetDisease data with
          | Some r => Bilingual.writeCompose diseaseFilePath r
          | None => io_ret tt
          end;
     run! match Bilingual.lastResource isValueSetMAH data with
          | Some r => Bilingual.writeCompose mahFilePath r
          | None => io_ret tt
          end;
     mainAfterWrites env data (Bilingual.lastResource isValueSetMAH data))
    (λ message, emit (ConsoleError ("Error: " ++ message))) w.
Proof. reflexivity. Qed.

Lemma catch_report (m : IO unit) w :
  io_catch m (λ message, emit (ConsoleError ("Error: " ++ message))) w =
  match m w with
  | (Ok a, w') => (Ok a, w')
  | (Throw e, w') => (Ok tt, reported e w')
  end.
Proof. unfold io_catch. by destruct (m w) as [[a|e] w']. Qed.

(** The run after the lookup files were written: either it reports an error
    and leaves the files as they are, or it writes the table built with the
    disease lookup found on disk. *)
Lemma main_tail_files env data mahResource w w' o :
  io_catch (mainAfterWrites env data mahResource)
    (λ message, emit (ConsoleError ("Error: " ++ message))) w = (o, w') →
  o = Ok tt ∧
  match storedLookup diseaseFilePath (files w) with
  | Throw e => w' = reported e w
  | Ok dl =>
      ∃ ml, (mahResource = None → ml = ∅) ∧
        match Bilingual.parseNVCBundle (Bilingual.API_URL env) data dl ml with
        | Throw e =>
            files w' = files w ∧
            last (console w') = Some (ConsoleError ("Error: " ++ e))
        | Ok table =>
            files w' = <[versionFilePath := DocVersion (versionId data)]>
                         (<[bundleFilePath := DocResult (versionId data) table]> (files w)) ∧
            last (console w')
            = Some (ConsoleInfo ("Successfully updated! current version is: "
                                 ++ versionId data))
        end
  end.
Proof.
  rewrite catch_report.
  destruct (mainAfterWrites_run env data mahResource w) as (ml & lines & Hml & ->).
  destruct (storedLookup diseaseFilePath (files w)) as [dl|e].
  - destruct (Bilingual.parseNVCBundle _ _ _ _) as [table|e] eqn:Hparse.
    + intros [= <- <-]. split; [done|]. exists ml. split; [done|].
      rewrite Hparse. simpl. by rewrite last_snoc.
    + intros [= <- <-]. split; [done|]. exists ml. split; [done|].
      rewrite Hparse. simpl. by rewrite last_snoc.
  - by intros [= <- <-].
Qed.

Lemma io_catch_bind {A B} (m : IO A) (k : A → IO B) (h : string → IO B) w :
  io_catch (io_bind m k) h w =
  match m w with
  | (Ok a, w1) => io_catch (k a) h w1
  | (Throw e, w1) => h e w1
  end.
Proof. unfold io_catch, io_bind. by destruct (m w) as [[a|e] w1]. Qed.

Lemma path_disease_mah : mahFilePath ≠ diseaseFilePath.
Proof. discriminate. Qed.
Lemma path_bundle_disease : bundleFilePath ≠ diseaseFilePath.
Proof. discriminate. Qed.
Lemma path_version_disease : versionFilePath ≠ diseaseFilePath.
Proof. discriminate. Qed.
Lemma path_mah_bundle : mahFilePath ≠ bundleFilePath.
Proof. discriminate. Qed.
Lemma path_mah_version : mahFilePath ≠ versionFilePath.
Proof. discriminate. Qed.
Lemma path_version_bundle : versionFilePath ≠ bundleFilePath.
Proof. discriminate. Qed.
Lemma path_disease_bundle : diseaseFilePath ≠ bundleFilePath.
Proof. discriminate. Qed.
Lemma path_disease_version : diseaseFilePath ≠ versionFilePath.
Proof. discriminate. Qed.

Create HintDb paths.

#[local] Hint Resolve path_disease_mah path_bundle_disease path_version_disease
  path_mah_bundle path_mah_version path_version_bundle
  path_disease_bundle path_disease_version : paths.

Ltac lookup_paths :=
  repeat first
    [ rewrite lookup_insert_eq
    | rewrite lookup_insert_ne by auto with paths ].

(** C10: in the bilingual variant the disease file is rewritten when the
    bundle has a Disease resource and left alone when it has none, and the
    disease lookup is built from the file in both cases.  So, without a
    Disease resource: the file is as the previous run left it; when it is
    missing, is no JSON, or yields no lookup, the run stops with an error and
    writes neither the table file nor the version marker; otherwise the
    table is built with the lookup of the stale file and written. *)
Theorem main_disease_file env data w :
  ∃ w',
    Bilingual.main env (Ok data) w = (Ok tt, w') ∧
    (∀ r c, Bilingual.lastResource isValueSetDisease data = Some r →
            compose r = Some c →
            files w' !! diseaseFilePath = Some (DocCompose c)) ∧
    (Bilingual.lastResource isValueSetDisease data = None →
     files w' !! diseaseFilePath = files w !! diseaseFilePath ∧
     ((files w !! diseaseFilePath = None ∨
       (∃ text, files w !! diseaseFilePath = Some (DocOther text)) ∨
       (∃ e, storedLookup diseaseFilePath (files w) = Throw e)) →
      files w' !! bundleFilePath = files w !! bundleFilePath ∧
      files w' !! versionFilePath = files w !! versionFilePath ∧
      ∃ message, last (console w') = Some (ConsoleError ("Error: " ++ message))) ∧
     (∀ stale,
        storedLookup diseaseFilePath (files w) = Ok stale →
        (∀ r, Bilingual.lastResource isValueSetMAH data = Some r → is_Some (compose r)) →
        wellFormed data →
        ∃ ml table,
          Bilingual.parseNVCBundle (Bilingual.API_URL env) data stale ml = Ok table ∧
          files w' !! bundleFilePath = Some (DocResult (versionId data) table) ∧
          files w' !! versionFilePath = Some (DocVersion (versionId data)))).
Proof.
  rewrite main_split, io_catch_bind. unfold emit at 1.
  set (w0 := mkWorld (files w) _).
  rewrite io_catch_bind.
  destruct (Bilingual.lastResource isValueSetDisease data) as [rd|] eqn:Hd.
  - (* a Disease resource: the file is written first *)
    rewrite writeCompose_run.
    destruct (compose rd) as [cd|] eqn:Hcd.
    + set (w1 := mkWorld (<[diseaseFilePath := _]> _) _).
      rewrite io_catch_bind.
      assert (Htail : ∀ w2 o w', files w2 !! diseaseFilePath = Some (DocCompose cd) →
        io_catch (mainAfterWrites env data (Bilingual.lastResource isValueSetMAH data))
          (λ message, emit (ConsoleError ("Error: " ++ message))) w2 = (o, w') →
        o = Ok tt ∧ files w' !! diseaseFilePath = Some (DocCompose cd)).
      { intros w2 o w' Hw2 Hrun.
        apply main_tail_files in Hrun as [-> Hrun]. split; [done|].
        destruct (storedLookup diseaseFilePath (files w2)) as [dl|e].
        - destruct Hrun as (ml & _ & Hrun).
          destruct (Bilingual.parseNVCBundle _ _ _ _); destruct Hrun as [-> _];
            by lookup_paths.
        - by subst w'. }
      destruct (Bilingual.lastResource isValueSetMAH data) as [rm|] eqn:Hm.
      * rewrite writeCompose_run. destruct (compose rm) as [cm|].
        -- destruct (io_catch _ _ _) as [o w'] eqn:Hrun.
           apply Htail in Hrun as [-> Hw']; [|simpl; by lookup_paths].
           exists w'. split; [done|]. split; [|done].
           intros r c [= <-] Hc. rewrite Hcd in Hc. by injection Hc as <-.
        -- eexists. split; [done|]. split; [|done].
           intros r c [= <-] Hc. rewrite Hcd in Hc. injection Hc as <-. simpl. by lookup_paths.
      * unfold io_ret at 1.
        destruct (io_catch _ _ _) as [o w'] eqn:Hrun.
        apply Htail in Hrun as [-> Hw']; [|simpl; by lookup_paths].
        exists w'. split; [done|]. split; [|done].
        intros r c [= <-] Hc. rewrite Hcd in Hc. by injection Hc as <-.
    + eexists. split; [done|]. split; [|done].
      intros r c [= <-]. congruence.
  - (* no Disease resource: the file is read as it is *)
    unfold io_ret at 1. rewrite io_catch_bind.
    assert (Htail : ∀ w2 o w',
      files w2 !! diseaseFilePath = files w !! diseaseFilePath →
      files w2 !! bundleFilePath = files w !! bundleFilePath →
      files w2 !! versionFilePath = files w !! versionFilePath →
      io_catch (mainAfterWrites env data (Bilingual.lastResource isValueSetMAH data))
        (λ message, emit (ConsoleError ("Error: " ++ message))) w2 = (o, w') →
      o = Ok tt ∧
      files w' !! diseaseFilePath = files w !! diseaseFilePath ∧
      (∀ e, storedLookup diseaseFilePath (files w) = Throw e →
            files w' !! bundleFilePath = files w !! bundleFilePath ∧
            files w' !! versionFilePath = files w !! versionFilePath ∧
            last (console w') = Some (ConsoleError ("Error: " ++ e))) ∧
      (∀ stale, storedLookup diseaseFilePath (files w) = Ok stale →
                wellFormed data →
                ∃ ml table,
                  Bilingual.parseNVCBundle (Bilingual.API_URL env) data stale ml
                  = Ok table ∧
                  files w' !! bundleFilePath = Some (DocResult (versionId data) table) ∧
                  files w' !! versionFilePath = Some (DocVersion (versionId data)))).
    { intros w2 o w' Hdis Hbun Hver Hrun.
      apply main_tail_files in Hrun as [-> Hrun]. split; [done|].
      assert (Hsame : storedLookup diseaseFilePath (files w2)
                      = storedLookup diseaseFilePath (files w)).
      { unfold storedLookup. by rewrite Hdis. }
      rewrite Hsame in Hrun.
      destruct (storedLookup diseaseFilePath (files w)) as [dl|e].
      - destruct Hrun as (ml & _ & Hrun).
        split; [|split; [done|]].
        + destruct (Bilingual.parseNVCBundle _ _ _ _); destruct Hrun as [-> _];
            by lookup_paths.
        + intros stale [= <-] Hwf. exists ml.
          rewrite bilingual_parseNVCBundle_storeAll in Hrun |- * by done.
          destruct Hrun as [-> _]. eexists. split; [done|]. by lookup_paths.
      - subst w'. simpl. split; [done|]. split; [|done].
        intros e' [= <-]. by rewrite last_snoc. }
    assert (Hstop : (files w !! diseaseFilePath = None ∨
                     (∃ text, files w !! diseaseFilePath = Some (DocOther text)) ∨
                     (∃ e, storedLookup diseaseFilePath (files w) = Throw e)) →
                    ∃ e, storedLookup diseaseFilePath (files w) = Throw e).
    { unfold storedLookup. intros [->|[[text ->]|He]]; eauto. }
    destruct (Bilingual.lastResource isValueSetMAH data) as [rm|] eqn:Hm.
    + rewrite writeCompose_run. destruct (compose rm) as [cm|] eqn:Hcm.
      * destruct (io_catch _ _ _) as [o w'] eqn:Hrun.
        apply Htail in Hrun as (-> & Hdis & Hthrow & Hstale);
          [|simpl; by lookup_paths..].
        exists w'. split; [done|]. split; [done|]. intros _.
        split; [done|]. split.
        -- intros [e He]%Hstop. destruct (Hthrow e He) as (? & ? & ?). eauto.
        -- intros stale Hs _ Hwf. by apply Hstale.
      * eexists. split; [done|]. split; [done|]. intros _. simpl.
        split; [done|]. split.
        -- intros _. split; [done|]. split; [done|]. eexists. by rewrite last_snoc.
        -- intros stale _ Hcomp. destruct (Hcomp rm eq_refl) as [c Hc]. congruence.
    + unfold io_ret at 1.
      destruct (io_catch _ _ _) as [o w'] eqn:Hrun.
      apply Htail in Hrun as (-> & Hdis & Hthrow & Hstale); [|done..].
      exists w'. split; [done|]. split; [done|]. intros _.
      split; [done|]. split.
      * intros [e He]%Hstop. destruct (Hthrow e He) as (? & ? & ?). eauto.
      * intros stale Hs _ Hwf. by apply Hstale.
Qed.

Lemma main_disease_file_witness :
  ∃ w',
    Bilingual.main None (Ok bundle_without_disease) fresh_world = (Ok tt, w') ∧
    files w' !! bundleFilePath = None ∧ files w' !! versionFilePath = None.
Proof.
  destruct (main_disease_file None bundle_without_disease fresh_world)
    as (w' & Hmain & _ & Habsent).
  destruct (Habsent eq_refl) as (_ & Hstop & _).
  destruct (Hstop (or_introl eq_refl)) as (Hbundle & Hversion & _).
  exists w'. split; [exact Hmain|]. split; [exact Hbundle|exact Hversion].
Defined.

(** ** Without the MarketAuthorizationHolder resource *)

Lemma mahName_empty_lookup f MAH :
  Bilingual.mahName f ∅ MAH = firstDisplay MAH.
Proof.
  unfold Bilingual.mahName, firstDisplay.
  destruct MAH as [|[|[k d] m0] MAH]; simpl; [done..|].
  rewrite lookup_empty. simpl. by rewrite bool_decide_eq_true_2.
Qed.

Lemma storedLookup_written path c fs :
  storedLookup path (<[path := DocCompose c]> fs) = Bilingual.buildLookup c.
Proof. unfold storedLookup. by rewrite lookup_insert_eq. Qed.

(** C3, as amended: when the bundle has no MarketAuthorizationHolder
    resource, the MAH lookup is built empty without touching a file and
    without an error, and the run goes on: with a Disease resource that
    yields a lookup and a well-formed bundle it writes the table built with
    the empty MAH lookup.  In that table a record carries [MAHEN] and
    [MAHFR] when the MAH extension of its Concept resolved to a coded value
    with a display that is not empty, and both then hold that raw display;
    a record whose MAH extension did not resolve has neither field. *)
Theorem main_mah_absent env data w :
  Bilingual.lastResource isValueSetMAH data = None →
  (∀ w0, Bilingual.buildMahLookup (Bilingual.lastResource isValueSetMAH data) w0
         = (Ok ∅, w0)) ∧
  (∃ w',
     Bilingual.main env (Ok data) w = (Ok tt, w') ∧
     files w' !! mahFilePath = files w !! mahFilePath ∧
     ∀ r c dl,
       Bilingual.lastResource isValueSetDisease data = Some r →
       compose r = Some c → Bilingual.buildLookup c = Ok dl →
       wellFormed data →
       ∃ table,
         Bilingual.parseNVCBundle (Bilingual.API_URL env) data dl ∅ = Ok table ∧
         files w' !! bundleFilePath = Some (DocResult (versionId data) table) ∧
         last (console w')
         = Some (ConsoleInfo ("Successfully updated! current version is: "
                              ++ versionId data))) ∧
  (∀ dl table c root,
     concept_extension c = Some root →
     ∃ MAH rec,
       getExtensionValueByUrl c (Bilingual.mahUrl (Bilingual.API_URL env)) = Ok MAH ∧
       Bilingual.conceptStep (Bilingual.API_URL env) dl ∅ table c
       = Ok (<[code c := rec]> table) ∧
       get "MAHEN" rec
       = (if JsString.truthy (firstDisplay MAH)
          then Some (JString (firstDisplay MAH)) else None) ∧
       get "MAHFR" rec = get "MAHEN" rec ∧
       (MAH = [] → get "MAHEN" rec = None ∧ get "MAHFR" rec = None)).
Proof.
  intros Hm. split; [|split].
  - intros w0. by rewrite Hm.
  - rewrite main_split, io_catch_bind. unfold emit at 1.
    rewrite io_catch_bind, Hm.
    assert (Htail : ∀ w2 o w',
      files w2 !! mahFilePath = files w !! mahFilePath →
      io_catch (mainAfterWrites env data None)
        (λ message, emit (ConsoleError ("Error: " ++ message))) w2 = (o, w') →
      o = Ok tt ∧ files w' !! mahFilePath = files w !! mahFilePath ∧
      ∀ dl, storedLookup diseaseFilePath (files w2) = Ok dl → wellFormed data →
            ∃ table,
              Bilingual.parseNVCBundle (Bilingual.API_URL env) data dl ∅ = Ok table ∧
              files w' !! bundleFilePath = Some (DocResult (versionId data) table) ∧
              last (console w')
              = Some (ConsoleInfo ("Successfully updated! current version is: "
                                   ++ versionId data))).
    { intros w2 o w' Hmah Hrun.
      apply main_tail_files in Hrun as [-> Hrun]. split; [done|].
      destruct (storedLookup diseaseFilePath (files w2)) as [dl|e].
      - destruct Hrun as (ml & Hml & Hrun). rewrite (Hml eq_refl) in Hrun.
        split.
        + destruct (Bilingual.parseNVCBundle _ _ _ _); destruct Hrun as [-> _];
            by lookup_paths.
        + intros dl' [= <-] Hwf.
          rewrite bilingual_parseNVCBundle_storeAll in Hrun |- * by done.
          destruct Hrun as [-> Hlast]. eexists. split; [done|].
          split; [by lookup_paths|done].
      - subst w'. split; [done|]. by intros dl [=]. }
    destruct (Bilingual.lastResource isValueSetDisease data) as [rd|] eqn:Hd.
    + rewrite writeCompose_run. destruct (compose rd) as [cd|] eqn:Hcd.
      * rewrite io_catch_bind. unfold io_ret at 1.
        destruct (io_catch _ _ _) as [o w'] eqn:Hrun.
        apply Htail in Hrun as (-> & Hmah & Hgo); [|simpl; by lookup_paths].
        exists w'. split; [done|]. split; [done|].
        intros r c dl [= <-] Hc Hdl Hwf. rewrite Hcd in Hc. injection Hc as <-.
        apply Hgo; [|done]. simpl. by rewrite storedLookup_written.
      * eexists. split; [done|]. split; [done|].
        intros r c dl [= <-] Hc. congruence.
    + unfold io_ret at 1. rewrite io_catch_bind. unfold io_ret at 1.
      destruct (io_catch _ _ _) as [o w'] eqn:Hrun.
      apply Htail in Hrun as (-> & Hmah & _); [|done].
      exists w'. split; [done|]. split; [done|]. by intros r c dl [=].
  - intros dl table c root Hroot.
    destruct (getExtensionValueByUrl_present c
                (Bilingual.mahUrl (Bilingual.API_URL env)) root Hroot)
      as (MAH & HMAH & _).
    exists MAH, (bilingualRecord (Bilingual.API_URL env) dl ∅ c).
    split; [done|]. split; [by apply bilingual_conceptStep_record; eauto|].
    unfold bilingualRecord. rewrite HMAH. cbn [resultOrEmpty].
    rewrite !mahName_empty_lookup.
    destruct (JsString.truthy (firstDisplay MAH)) eqn:Htruthy; cbn [andb].
    + rewrite !get_set. simpl. split; [done|]. split; [done|].
      intros ->. by simpl in Htruthy.
    + done.
Qed.

Lemma main_mah_absent_witness :
  Bilingual.buildMahLookup
    (Bilingual.lastResource isValueSetMAH bundle_without_mah) fresh_world
  = (Ok ∅, fresh_world).
Proof.
  exact (proj1 (main_mah_absent None bundle_without_mah fresh_world eq_refl)
           fresh_world).
Defined.

(** C3 as stated fails: without the MarketAuthorizationHolder resource, the
    record of a Concept whose MAH extension carries a display holds that
    display in [MAHEN] and [MAHFR]. *)
Lemma main_mah_absent_counterexample :
  Bilingual.lastResource isValueSetMAH bundle_without_mah = None ∧
  ∃ w',
    Bilingual.main None (Ok bundle_without_mah) fresh_world = (Ok tt, w') ∧
    files w' !! bundleFilePath
    = Some (DocResult "2024-01"
              {[ "V1" := [("displayEN", JString "Vaccine One");
                          ("displayFR", JString "Vaccine One");
                          ("diseaseEN", JArray [JObject [("D1", JString "Measles")]]);
                          ("diseaseFR", JArray [JObject [("D1", JString "Measles")]]);
                          ("MAHEN", JString "Pfizer");
                          ("MAHFR", JString "Pfizer")] ]}).
Proof.
  split; [reflexivity|]. eexists. split; [vm_compute; reflexivity|].
  vm_compute. reflexivity.
Qed.

(** ** The scenarios of the specification *)

(** A Concept with an English designation and no disease or MAH extension. *)
Example scenario_designation :
  Bilingual.parseNVCBundle prod_url
    (mkData "1" [valueSet "Tradename" [vaccine_alpha]]) ∅ ∅
  = Ok {[ "V001" := [("displayEN", JString "Vaccine Alpha");
                     ("displayFR", JString "Vaccine A");
                     ("diseaseEN", JArray []);
                     ("diseaseFR", JArray [])] ]}.
Proof. vm_compute. reflexivity. Qed.

(** A Concept with a disease extension and a disease lookup that knows the
    code. *)
Example scenario_disease_lookup :
  Bilingual.parseNVCBundle prod_url
    (mkData "1" [valueSet "Tradename"
                   [vaccine "V1" "Vaccine One"
                      [coded (Bilingual.diseaseUrl prod_url) "D1" "Measles (raw)"]]])
    {[ "D1" := Bilingual.mkNames "Measles" "Rougeole" ]} ∅
  = Ok {[ "V1" := [("displayEN", JString "Vaccine One");
                   ("displayFR", JString "Vaccine One");
                   ("diseaseEN", JArray [JObject [("D1", JString "Measles")]]);
                   ("diseaseFR", JArray [JObject [("D1", JString "Rougeole")]])] ]}.
Proof. vm_compute. reflexivity. Qed.

(** The single-language variant on the same Concept keeps the resolved
    dictionary itself. *)
Example scenario_simple_record :
  Simple.parseNVCBundle
    (mkData "1" [valueSet "Generic"
                   [vaccine "V1" "Vaccine One"
                      [coded Simple.diseaseUrl "D1" "Measles (raw)"]]])
  = Ok {[ "V1" := [("displayName", JString "Vaccine One");
                   ("disease", JArray [JObject [("D1", JString "Measles (raw)")]])] ]}.
Proof. vm_compute. reflexivity. Qed.

(** * Further properties of the code *)

(** ** The resolver *)

Lemma dfs_node_ext (m m' : Extension → bool) :
  (∀ e, m e = m' e) → ∀ e, dfs_node m e = dfs_node m' e.
Proof.
  intros Hm.
  induction e as [u v|u l v IH] using Extension_tree_ind; simpl.
  - by rewrite Hm.
  - rewrite Hm. f_equal.
    induction IH as [|x l Hx _ IHl]; simpl; [done|]. by rewrite Hx, IHl.
Qed.

Lemma dfs_ext (m m' : Extension → bool) l :
  (∀ e, m e = m' e) → dfs m l = dfs m' l.
Proof.
  intros Hm. unfold dfs. induction l as [|e l IH]; simpl; [done|].
  by rewrite (dfs_node_ext m m' Hm), IH.
Qed.

(** X1: a resolution depends on the target URL only through its trimmed,
    lower-case form: two targets that agree after trimming and case folding
    give the same outcome on every Concept. *)
Theorem getExtensionValueByUrl_target_normalised concept targetUrl targetUrl' :
  normUrl targetUrl = normUrl targetUrl' →
  getExtensionValueByUrl concept targetUrl = getExtensionValueByUrl concept targetUrl'.
Proof.
  intros Hnorm. unfold getExtensionValueByUrl.
  destruct (concept_extension concept) as [root|]; [|done].
  rewrite !findExtensions_dfs.
  rewrite (dfs_ext (urlMatches targetUrl) (urlMatches targetUrl')); [done|].
  intros e. unfold urlMatches. by rewrite Hnorm.
Qed.

Lemma getExtensionValueByUrl_target_normalised_witness :
  getExtensionValueByUrl nested_concept Simple.diseaseUrl
  = getExtensionValueByUrl nested_concept
      "  HTTPS://NVC-CNV.CANADA.CA/v1/structuredefinition/NVC-Protects-Against-Disease ".
Proof.
  apply (getExtensionValueByUrl_target_normalised nested_concept).
  vm_compute. reflexivity.
Defined.

Lemma fold_set_keys_NoDup (cs : list Coding) (o : JsObject string) :
  NoDup (keys o) →
  NoDup (keys (fold_left (λ o c, set (coding_code c) (coding_display c) o) cs o)).
Proof.
  revert o. induction cs as [|c cs IH]; intros o Ho; simpl; [done|].
  apply IH. by apply keys_set_NoDup.
Qed.

(** X2: a call that returns gives back at most one object; that object is
    never empty and its property names are pairwise distinct. *)
Theorem getExtensionValueByUrl_shape concept targetUrl r :
  getExtensionValueByUrl concept targetUrl = Ok r →
  r = [] ∨ ∃ o, r = [o] ∧ o ≠ [] ∧ NoDup (keys o).
Proof.
  destruct (concept_extension concept) as [root|] eqn:Hroot.
  - rewrite (getExtensionValueByUrl_codings _ _ root Hroot). cbn zeta.
    set (o := fold_left _ _ _).
    assert (Hnd : NoDup (keys o)) by (apply fold_set_keys_NoDup; constructor).
    intros [= <-]. destruct o as [|kv o']; simpl; [by left|].
    right. eexists. split; [done|]. split; [done|]. exact Hnd.
  - unfold getExtensionValueByUrl. rewrite Hroot. discriminate.
Qed.

Lemma getExtensionValueByUrl_shape_witness :
  ∃ o, [[("A", "y"); ("B", "z")]] = [o] ∧ o ≠ [] ∧ NoDup (keys o).
Proof.
  destruct (getExtensionValueByUrl_shape nested_concept Simple.diseaseUrl
              [[("A", "y"); ("B", "z")]]) as [Hnil|Hone].
  - vm_compute. reflexivity.
  - discriminate Hnil.
  - exact Hone.
Defined.

Lemma elem_of_dfs_node (m : Extension → bool) e x :
  x ∈ dfs_node m e → m x = true ∧ (x = e ∨ ∃ children,
    extension e = Some children ∧ inForest x children).
Proof.
  revert x. induction e as [u v|u l v IH] using Extension_tree_ind; intros x; simpl.
  - rewrite app_nil_r. destruct (m _) eqn:Hm; [|inversion 1].
    intros ->%list_elem_of_singleton. split; [done|by left].
  - rewrite elem_of_app. intros [Hx|Hx].
    + destruct (m _) eqn:Hm; [|inversion Hx].
      apply list_elem_of_singleton in Hx as ->. split; [done|by left].
    + apply list_elem_of_In, in_flat_map in Hx as (c & Hc & Hx).
      apply list_elem_of_In in Hc, Hx.
      rewrite Forall_forall in IH. destruct (IH c Hc x Hx) as [Hm Hwhere].
      split; [done|]. right. exists l. split; [done|].
      destruct Hwhere as [->|(children & Hch & Hin)].
      * by apply inForest_root.
      * by eapply inForest_below.
Qed.

Lemma elem_of_dfs (m : Extension → bool) l x :
  x ∈ dfs m l → m x = true ∧ inForest x l.
Proof.
  unfold dfs. intros (e & He & Hx)%list_elem_of_In%in_flat_map.
  apply list_elem_of_In in He, Hx.
  destruct (elem_of_dfs_node m e x Hx) as [Hm [->|(children & Hch & Hin)]].
  - split; [done|]. by apply inForest_root.
  - split; [done|]. by eapply inForest_below.
Qed.

Lemma elem_of_codingsOf cd l :
  cd ∈ codingsOf l → ∃ e cs, e ∈ l ∧ codingOf e = Some cs ∧ cd ∈ cs.
Proof.
  unfold codingsOf. intros (e & He & Hcd)%list_elem_of_In%in_flat_map.
  apply list_elem_of_In in He, Hcd.
  destruct (codingOf e) as [cs|] eqn:Hcs; [|inversion Hcd].
  by exists e, cs.
Qed.

(** X3: every (code, display) pair of a result is a coded value of a node
    of the Concept's extension tree whose URL matches the target; codings of
    other nodes, and the displays of other codings, never appear. *)
Theorem getExtensionValueByUrl_sound concept targetUrl root r k d :
  concept_extension concept = Some root →
  getExtensionValueByUrl concept targetUrl = Ok r →
  resolved r k = Some d →
  ∃ e cs cd,
    inForest e root ∧ urlMatches targetUrl e = true ∧
    codingOf e = Some cs ∧ cd ∈ cs ∧
    coding_code cd = k ∧ coding_display cd = d.
Proof.
  intros Hroot Hr Hk.
  destruct (getExtensionValueByUrl_resolved concept targetUrl root Hroot)
    as (r' & Hr' & _ & Hres).
  rewrite Hr in Hr'. injection Hr' as <-.
  rewrite Hres in Hk. unfold mergedMapping in Hk.
  apply merge_lookup_elem in Hk as [(cd & Hcd & Hcode & Hdisp)|Hk];
    [|by rewrite lookup_empty in Hk].
  unfold matchedCodings in Hcd. rewrite findExtensions_dfs in Hcd.
  apply elem_of_codingsOf in Hcd as (e & cs & He & Hcs & Hin).
  apply elem_of_dfs in He as [Hm Hforest].
  by exists e, cs, cd.
Qed.

Lemma getExtensionValueByUrl_sound_witness :
  ∃ e cs cd,
    inForest e [nested_extension] ∧ urlMatches Simple.diseaseUrl e = true ∧
    codingOf e = Some cs ∧ cd ∈ cs ∧
    coding_code cd = "B" ∧ coding_display cd = "z".
Proof.
  apply (getExtensionValueByUrl_sound nested_concept Simple.diseaseUrl
           [nested_extension] [[("A", "y"); ("B", "z")]] "B" "z").
  - reflexivity.
  - vm_compute. reflexivity.
  - vm_compute. reflexivity.
Defined.

(** ** The flattener *)

Lemma forEachM_throw {A S} (f : S → A → Outcome S) (bad : A → Prop) msg l s :
  (∀ s a, bad a → f s a = Throw msg) →
  (∀ s a, ¬ bad a → ∃ s', f s a = Ok s') →
  (∀ a, Decision (bad a)) →
  Exists bad l → forEachM f l s = Throw msg.
Proof.
  intros Hbad Hgood Hdec Hex. revert s.
  induction l as [|a l IH]; intros s; [by apply Exists_nil in Hex|].
  simpl. destruct (Hdec a) as [Ha|Ha].
  - by rewrite Hbad.
  - destruct (Hgood s a Ha) as [s' ->]. simpl. apply IH.
    apply Exists_cons in Hex as [?|?]; done.
Qed.

Lemma simple_conceptStep_rootless table c :
  concept_extension c = None → Simple.conceptStep table c = Throw forEachOfUndefined.
Proof.
  intros Hc. unfold Simple.conceptStep, getExtensionValueByUrl. by rewrite Hc.
Qed.

Lemma bilingual_conceptStep_rootless apiUrl dl ml table c :
  concept_extension c = None →
  Bilingual.conceptStep apiUrl dl ml table c = Throw forEachOfUndefined.
Proof.
  intros Hc. unfold Bilingual.conceptStep, getExtensionValueByUrl. by rewrite Hc.
Qed.

Lemma not_wellFormed_Exists data :
  ¬ wellFormed data →
  Exists (λ c, concept_extension c = None) (processedConcepts data).
Proof.
  intros Hnot. apply not_Forall_Exists in Hnot; [|apply _].
  eapply Exists_impl; [exact Hnot|]. simpl. intros c Hc.
  destruct (concept_extension c); [|done]. destruct Hc. eauto.
Qed.

(** X4: both flatteners fail exactly on the bundles in which a Concept of a
    recognised value set has no [extension] array, and then with the
    [TypeError] of [forEach]; a Concept of another value set never makes
    them fail. *)
Theorem parseNVCBundle_failure apiUrl data dl ml :
  (wellFormed data ∧
   (∃ table, Simple.parseNVCBundle data = Ok table) ∧
   (∃ table, Bilingual.parseNVCBundle apiUrl data dl ml = Ok table)) ∨
  (¬ wellFormed data ∧
   Simple.parseNVCBundle data = Throw forEachOfUndefined ∧
   Bilingual.parseNVCBundle apiUrl data dl ml = Throw forEachOfUndefined).
Proof.
  destruct (decide (wellFormed data)) as [Hwf|Hnot].
  - left. split; [done|]. split; eexists.
    + by apply simple_parseNVCBundle_storeAll.
    + by apply bilingual_parseNVCBundle_storeAll.
  - right. split; [done|]. apply not_wellFormed_Exists in Hnot.
    unfold Simple.parseNVCBundle, Bilingual.parseNVCBundle.
    rewrite !forEachConcept_flat. split.
    + apply (forEachM_throw _ (λ c, concept_extension c = None)); [| |apply _|done].
      * intros t c Hc. by apply simple_conceptStep_rootless.
      * intros t c Hc. eexists. apply simple_conceptStep_record.
        by destruct (concept_extension c).
    + apply (forEachM_throw _ (λ c, concept_extension c = None)); [| |apply _|done].
      * intros t c Hc. by apply bilingual_conceptStep_rootless.
      * intros t c Hc. eexists. apply bilingual_conceptStep_record.
        by destruct (concept_extension c).
Qed.

Lemma flat_map_filter {A B} (p : A → bool) (f : A → list B) l :
  flat_map (λ a, if p a then f a else []) (List.filter p l)
  = flat_map (λ a, if p a then f a else []) l.
Proof.
  induction l as [|a l IH]; simpl; [done|].
  destruct (p a) eqn:Hp; simpl; by rewrite ?Hp, IH.
Qed.

(** X5: the table depends only on the entries of the recognised value sets:
    dropping every other entry from a bundle, and changing its version
    identifier, changes the outcome of neither flattener. *)
Theorem parseNVCBundle_other_entries apiUrl data dl ml v :
  Simple.parseNVCBundle
    (mkData v (List.filter (λ e, isValueSet (id (resource e))) (entry data)))
  = Simple.parseNVCBundle data ∧
  Bilingual.parseNVCBundle apiUrl
    (mkData v (List.filter (λ e, isValueSet (id (resource e))) (entry data))) dl ml
  = Bilingual.parseNVCBundle apiUrl data dl ml.
Proof.
  unfold Simple.parseNVCBundle, Bilingual.parseNVCBundle.
  rewrite !forEachConcept_flat. unfold processedConcepts. simpl.
  by rewrite (flat_map_filter (λ e, isValueSet (id (resource e)))
                (λ e, conceptsOfValueSet (resource e))).
Qed.

(** ** The records of the bilingual variant *)

Lemma bilingual_conceptStep_Ok apiUrl dl ml table c table' :
  Bilingual.conceptStep apiUrl dl ml table c = Ok table' →
  table' = <[code c := bilingualRecord apiUrl dl ml c]> table.
Proof.
  destruct (concept_extension c) as [root|] eqn:Hroot.
  - rewrite bilingual_conceptStep_record by eauto. by intros [= <-].
  - by rewrite bilingual_conceptStep_rootless.
Qed.

Lemma truthy_not_empty s : JsString.truthy s = true ↔ s ≠ EmptyString.
Proof. destruct s; simpl; split; congruence. Qed.

(** X6: a record of the bilingual table never has one of [MAHEN] and
    [MAHFR] without the other, and when it has them neither is the empty
    string. *)
Theorem conceptStep_mah_pair apiUrl dl ml table c table' :
  Bilingual.conceptStep apiUrl dl ml table c = Ok table' →
  ∃ rec,
    table' !! code c = Some rec ∧
    ((get "MAHEN" rec = None ∧ get "MAHFR" rec = None) ∨
     (∃ a b, get "MAHEN" rec = Some (JString a) ∧ get "MAHFR" rec = Some (JString b) ∧
             a ≠ EmptyString ∧ b ≠ EmptyString)).
Proof.
  intros ->%bilingual_conceptStep_Ok. eexists. split; [apply lookup_insert_eq|].
  unfold bilingualRecord. cbv zeta.
  set (a := Bilingual.mahName Bilingual.en ml _).
  set (b := Bilingual.mahName Bilingual.fr ml _).
  destruct (JsString.truthy a && JsString.truthy b) eqn:Hboth.
  - right. apply andb_true_iff in Hboth as [Ha Hb].
    apply truthy_not_empty in Ha, Hb.
    exists a, b. rewrite !get_set. simpl. done.
  - left. done.
Qed.

Lemma conceptStep_mah_pair_witness :
  ∃ rec,
    ({[ "V1" := bilingualRecord prod_url ∅ ∅ pfizer_vaccine ]} : Table)
      !! code pfizer_vaccine = Some rec ∧
    ((get "MAHEN" rec = None ∧ get "MAHFR" rec = None) ∨
     (∃ a b, get "MAHEN" rec = Some (JString a) ∧ get "MAHFR" rec = Some (JString b) ∧
             a ≠ EmptyString ∧ b ≠ EmptyString)).
Proof.
  apply (conceptStep_mah_pair prod_url ∅ ∅ ∅ pfizer_vaccine).
  vm_compute. reflexivity.
Defined.

Lemma mahName_first f (ml : gmap string Bilingual.Names) k d o rest :
  Bilingual.mahName f ml (((k, d) :: o) :: rest)
  = JsString.opt_or_else (f <$> ml !! k) d.
Proof.
  unfold Bilingual.mahName. simpl. by rewrite bool_decide_eq_true_2.
Qed.

(** X7: when the MAH extension of a Concept resolves, the names come from
    the MAH lookup entry of the first resolved code if that entry has both
    names; without an entry for that code both fields hold the raw display
    of that coded value, if it is not empty. *)
Theorem conceptStep_mah_names apiUrl dl ml table c k d o rest :
  getExtensionValueByUrl c (Bilingual.mahUrl apiUrl) = Ok (((k, d) :: o) :: rest) →
  ∃ rec,
    Bilingual.conceptStep apiUrl dl ml table c = Ok (<[code c := rec]> table) ∧
    (∀ n, ml !! k = Some n →
          Bilingual.en n ≠ EmptyString → Bilingual.fr n ≠ EmptyString →
          get "MAHEN" rec = Some (JString (Bilingual.en n)) ∧
          get "MAHFR" rec = Some (JString (Bilingual.fr n))) ∧
    (ml !! k = None → d ≠ EmptyString →
     get "MAHEN" rec = Some (JString d) ∧ get "MAHFR" rec = Some (JString d)).
Proof.
  intros HMAH.
  assert (Hroot : is_Some (concept_extension c)).
  { unfold getExtensionValueByUrl in HMAH.
    destruct (concept_extension c); [eauto|discriminate]. }
  exists (bilingualRecord apiUrl dl ml c).
  split; [by apply bilingual_conceptStep_record|].
  unfold bilingualRecord. rewrite HMAH. cbn [resultOrEmpty].
  rewrite !mahName_first.
  split.
  - intros n -> Hen%truthy_not_empty Hfr%truthy_not_empty.
    cbn [fmap option_fmap option_map].
    unfold JsString.opt_or_else, JsString.or_else.
    rewrite Hen, Hfr. cbn [andb]. rewrite Hen, Hfr. cbn [andb].
    rewrite !get_set. simpl. done.
  - intros -> Hd%truthy_not_empty. cbn [fmap option_fmap option_map].
    unfold JsString.opt_or_else. rewrite Hd. cbn [andb].
    rewrite !get_set. simpl. done.
Qed.

Lemma conceptStep_mah_names_witness :
  ∃ rec,
    Bilingual.conceptStep prod_url ∅ {[ "M1" := Bilingual.mkNames "Pfizer Canada" "Pfizer Canada SRI" ]}
      ∅ pfizer_vaccine = Ok (<[code pfizer_vaccine := rec]> ∅) ∧
    get "MAHEN" rec = Some (JString "Pfizer Canada") ∧
    get "MAHFR" rec = Some (JString "Pfizer Canada SRI").
Proof.
  destruct (conceptStep_mah_names prod_url ∅
              {[ "M1" := Bilingual.mkNames "Pfizer Canada" "Pfizer Canada SRI" ]}
              ∅ pfizer_vaccine "M1" "Pfizer" [] [])
    as (rec & Hstep & Hlookup & _).
  - vm_compute. reflexivity.
  - exists rec. split; [exact Hstep|].
    apply (Hlookup (Bilingual.mkNames "Pfizer Canada" "Pfizer Canada SRI")).
    + vm_compute. reflexivity.
    + discriminate.
    + discriminate.
Defined.

Lemma get_bilingualRecord_disease apiUrl dl ml c :
  let codes := match resultOrEmpty
                       (getExtensionValueByUrl c (Bilingual.diseaseUrl apiUrl)) with
               | d0 :: _ => keys d0
               | [] => []
               end in
  get "diseaseEN" (bilingualRecord apiUrl dl ml c)
  = Some (JArray (Bilingual.diseaseNames Bilingual.en dl codes)) ∧
  get "diseaseFR" (bilingualRecord apiUrl dl ml c)
  = Some (JArray (Bilingual.diseaseNames Bilingual.fr dl codes)).
Proof.
  unfold bilingualRecord. cbv zeta.
  destruct (JsString.truthy _ && JsString.truthy _).
  - rewrite !get_set. simpl. done.
  - done.
Qed.

(** X8: in a record of the bilingual table [diseaseEN] and [diseaseFR] are
    arrays of the same length, empty exactly when the disease extension did
    not resolve; entry by entry they are one-property objects naming the same
    resolved code, and a code the disease lookup does not know is shown as
    the code itself in both. *)
Theorem conceptStep_disease_names apiUrl dl ml table c table' :
  Bilingual.conceptStep apiUrl dl ml table c = Ok table' →
  ∃ rec disease en fr,
    getExtensionValueByUrl c (Bilingual.diseaseUrl apiUrl) = Ok disease ∧
    table' !! code c = Some rec ∧
    get "diseaseEN" rec = Some (JArray en) ∧
    get "diseaseFR" rec = Some (JArray fr) ∧
    length en = length fr ∧
    (en = [] ↔ disease = []) ∧
    (∀ i x, en !! i = Some x →
       ∃ k a b,
         x = JObject [(k, JString a)] ∧
         fr !! i = Some (JObject [(k, JString b)]) ∧
         is_Some (resolved disease k) ∧
         (dl !! k = None → a = k ∧ b = k)).
Proof.
  intros Hstep.
  assert (Hroot : ∃ root, concept_extension c = Some root).
  { destruct (concept_extension c) as [root|] eqn:Hroot; [eauto|].
    by rewrite bilingual_conceptStep_rootless in Hstep. }
  destruct Hroot as [root Hroot].
  apply bilingual_conceptStep_Ok in Hstep as ->.
  destruct (get_bilingualRecord_disease apiUrl dl ml c) as [Hen Hfr].
  pose proof (getExtensionValueByUrl_codings c (Bilingual.diseaseUrl apiUrl) root Hroot)
    as Hd.
  cbv zeta in Hd. set (o := fold_left _ _ _) in Hd.
  eexists _, _, _, _. split; [exact Hd|]. split; [apply lookup_insert_eq|].
  split; [exact Hen|]. split; [exact Hfr|].
  rewrite Hd. cbn [resultOrEmpty]. unfold Bilingual.diseaseNames.
  destruct o as [|[k0 d0] o']; simpl.
  - split; [done|]. split; [done|]. intros i x Hx. by rewrite lookup_nil in Hx.
  - split; [by rewrite !length_map|]. split; [done|].
    intros [|i] x Hx; simpl in *.
    + injection Hx as <-. eexists k0, _, _. split; [done|]. split; [done|].
      split; [rewrite bool_decide_eq_true_2; eauto|].
      intros ->. done.
    + rewrite list_lookup_fmap in Hx |- *.
      destruct (keys o' !! i) as [k|] eqn:Hk; [|done]. simpl in *.
      injection Hx as <-. eexists k, _, _. split; [done|]. split; [done|].
      split.
      * case_bool_decide; [eauto|]. apply keys_in_iff.
        by eapply list_elem_of_lookup_2.
      * intros ->. done.
Qed.

Lemma conceptStep_disease_names_witness :
  ∃ rec disease en fr,
    getExtensionValueByUrl pfizer_vaccine (Bilingual.diseaseUrl prod_url) = Ok disease ∧
    ({[ "V1" := bilingualRecord prod_url ∅ ∅ pfizer_vaccine ]} : Table)
      !! code pfizer_vaccine = Some rec ∧
    get "diseaseEN" rec = Some (JArray en) ∧
    get "diseaseFR" rec = Some (JArray fr) ∧
    length en = length fr.
Proof.
  destruct (conceptStep_disease_names prod_url ∅ ∅ ∅ pfizer_vaccine
              {[ "V1" := bilingualRecord prod_url ∅ ∅ pfizer_vaccine ]})
    as (rec & disease & en & fr & H1 & H2 & H3 & H4 & H5 & _).
  - vm_compute. reflexivity.
  - by exists rec, disease, en, fr.
Defined.

(** X9: a Concept with a raw display that is not empty never gets an empty
    name, neither in the table ([getDisplayName(..) || concept.display]) nor
    in the lookups that [main] builds. *)
Theorem display_never_blank c lang code :
  display c ≠ EmptyString →
  Bilingual.displayFor c lang code ≠ EmptyString ∧
  Bilingual.lookupName c lang code ≠ EmptyString.
Proof.
  intros Hd.
  assert (Hor : ∀ found, JsString.opt_or_else found (display c) ≠ EmptyString).
  { intros [v|]; simpl; [|done]. unfold JsString.or_else.
    destruct (JsString.truthy v) eqn:Hv; [|done]. by apply truthy_not_empty. }
  split; apply Hor.
Qed.

Lemma display_never_blank_witness :
  Bilingual.displayFor blank_designation_concept "en" "enDisplayTerm" ≠ EmptyString ∧
  Bilingual.lookupName blank_designation_concept "en" "enDisplayTerm" ≠ EmptyString.
Proof.
  apply (display_never_blank blank_designation_concept). discriminate.
Defined.

(** ** The lookups built by [main] *)

Lemma find_ext {A} (f g : A → bool) l :
  (∀ x, f x = g x) → find f l = find g l.
Proof.
  intros Hfg. induction l as [|x l IH]; simpl; [done|]. by rewrite Hfg, IH.
Qed.

(** The selection written out in [main] is the one [parseNVCBundle] makes
    with [getDisplayName]. *)
Lemma lookupName_displayFor c lang code :
  Bilingual.lookupName c lang code = Bilingual.displayFor c lang code.
Proof.
  unfold Bilingual.lookupName, Bilingual.displayFor, getDisplayName.
  destruct (designation c) as [ds|]; [|done].
  f_equal. f_equal. apply find_ext. intros d.
  by rewrite <- !andb_assoc, (andb_comm (useSystemIs d namingSystem)).
Qed.

Section fold_insert.
Context {A V : Type} (key : A → string) (val : A → V).
Implicit Types (l : list A) (m : gmap string V).

Lemma fold_insert_other l m k :
  k ∉ map key l → fold_left (λ m x, <[key x := val x]> m) l m !! k = m !! k.
Proof.
  revert m. induction l as [|x l IH]; intros m Hk; simpl; [done|].
  rewrite IH.
  - apply lookup_insert_ne. intros Heq. apply Hk. simpl. rewrite <- Heq. left.
  - intros Hin. apply Hk. simpl. by right.
Qed.

Lemma fold_insert_is_Some l m k :
  is_Some (fold_left (λ m x, <[key x := val x]> m) l m !! k)
  ↔ k ∈ map key l ∨ is_Some (m !! k).
Proof.
  revert m. induction l as [|x l IH]; intros m; simpl.
  - split; [by right|]. intros [H|H]; [inversion H|done].
  - rewrite IH, elem_of_cons, lookup_insert_is_Some.
    destruct (decide (key x = k)); naive_solver.
Qed.

Lemma fold_insert_last l1 x l2 m :
  (∀ y, y ∈ l2 → key y ≠ key x) →
  fold_left (λ m x, <[key x := val x]> m) (l1 ++ x :: l2) m !! key x = Some (val x).
Proof.
  intros Hlater. rewrite fold_left_app. simpl. rewrite fold_insert_other.
  - apply lookup_insert_eq.
  - intros (y & Hy & Hin)%list_elem_of_fmap. by apply (Hlater y).
Qed.

End fold_insert.

Lemma forEachM_pure {A S} (f : S → A → S) l s :
  forEachM (λ s a, Ok (f s a)) l s = Ok (fold_left f l s).
Proof.
  revert s. induction l as [|a l IH]; intros s; simpl; [done|]. apply IH.
Qed.

Lemma buildLookup_complete c incs :
  include c = Some incs → Forall (λ inc, is_Some (concept inc)) incs →
  Bilingual.buildLookup c
  = Ok (fold_left (λ m x, <[code x := namesOf x]> m) (lookupConcepts c) ∅).
Proof.
  intros Hincs Hall. unfold Bilingual.buildLookup, lookupConcepts. rewrite Hincs.
  clear Hincs. generalize (∅ : gmap string Bilingual.Names).
  induction Hall as [|inc incs [cs Hcs] _ IH]; intros m; simpl; [done|].
  rewrite Hcs. simpl. rewrite fold_left_app.
  rewrite (forEachM_ext _ (λ lookup x, Ok (<[code x := namesOf x]> lookup))).
  - rewrite forEachM_pure. simpl. apply IH.
  - intros s x. unfold namesOf. by rewrite !lookupName_displayFor.
Qed.

(** X10: from a [compose] structure whose [include] and [concept] arrays
    are all there, the lookup builder returns a lookup whose keys are exactly
    the codes of its Concepts and that holds for a code the names selected
    for the last Concept with that code, by the same selection as the one of
    the table. *)
Theorem buildLookup_last_wins c :
  completeCompose c →
  ∃ lookup,
    Bilingual.buildLookup c = Ok lookup ∧
    (∀ k, is_Some (lookup !! k) ↔ k ∈ map code (lookupConcepts c)) ∧
    (∀ l1 x l2,
       lookupConcepts c = l1 ++ x :: l2 →
       (∀ y, y ∈ l2 → code y ≠ code x) →
       lookup !! code x
       = Some (Bilingual.mkNames (Bilingual.displayFor x "en" "enDisplayTerm")
                                 (Bilingual.displayFor x "fr" "frDisplayTerm"))).
Proof.
  intros (incs & Hincs & Hall). eexists.
  split; [by apply (buildLookup_complete c incs)|]. split.
  - intros k. rewrite fold_insert_is_Some, lookup_empty.
    split; [intros [?|[? ?]]; done|by left].
  - intros l1 x l2 -> Hlater. by rewrite fold_insert_last.
Qed.

Lemma disease_compose_complete : completeCompose disease_compose.
Proof.
  eexists. split; [reflexivity|].
  repeat (apply List.Forall_cons; [eexists; reflexivity|]). apply List.Forall_nil.
Defined.

Lemma buildLookup_last_wins_witness :
  ∃ lookup,
    Bilingual.buildLookup disease_compose = Ok lookup ∧
    lookup !! "D1" = Some (Bilingual.mkNames "Measles" "Rougeole").
Proof.
  destruct (buildLookup_last_wins disease_compose disease_compose_complete)
    as (lookup & Hbuild & _ & Hlast).
  exists lookup. split; [exact Hbuild|].
  apply (Hlast [vaccine "D1" "Old" []] measles []); [reflexivity|].
  intros y Hy. inversion Hy.
Defined.

Lemma forEachM_pure_total {A S} (f : S → A → S) l s :
  ∃ s', forEachM (λ s a, Ok (f s a)) l s = Ok s'.
Proof. eexists. apply forEachM_pure. Qed.

(** X11: the lookup builder throws the [TypeError] of [forEach] when the
    [include] array of the structure is absent and when one of its includes
    has no [concept] array; it throws in no other case. *)
Theorem buildLookup_failure c :
  (completeCompose c ∧ ∃ lookup, Bilingual.buildLookup c = Ok lookup) ∨
  (¬ completeCompose c ∧ Bilingual.buildLookup c = Throw forEachOfUndefined).
Proof.
  destruct (include c) as [incs|] eqn:Hincs.
  - destruct (decide (Forall (λ inc, is_Some (concept inc)) incs)) as [Hall|Hnot].
    + left. split; [by exists incs|]. eexists. by apply (buildLookup_complete c incs).
    + right. split.
      * intros (incs' & Hincs' & Hall). congruence.
      * unfold Bilingual.buildLookup. rewrite Hincs.
        apply not_Forall_Exists in Hnot; [|apply _].
        apply (forEachM_throw _ (λ inc, concept inc = None)); [| |apply _|].
        -- by intros s inc ->.
        -- intros s inc Hinc. destruct (concept inc) as [cs|]; [|done].
           apply (forEachM_pure_total
                    (λ lookup x, <[code x := Bilingual.mkNames _ _]> lookup)).
        -- eapply Exists_impl; [exact Hnot|]. simpl. intros inc Hinc.
           destruct (concept inc); [|done]. destruct Hinc. eauto.
  - right. split.
    + intros (incs & Hincs' & _). congruence.
    + unfold Bilingual.buildLookup. by rewrite Hincs.
Qed.

(** ** Picking the Disease and MAH resources *)

Lemma lastResource_snoc p v l e :
  Bilingual.lastResource p (mkData v (l ++ [e]))
  = if p (id (resource e)) then Some (resource e)
    else Bilingual.lastResource p (mkData v l).
Proof. unfold Bilingual.lastResource. simpl. by rewrite fold_left_app. Qed.

Lemma lastResource_None p data :
  Bilingual.lastResource p data = None ↔
  ∀ e, e ∈ entry data → p (id (resource e)) = false.
Proof.
  destruct data as [v l]. simpl.
  induction l as [|e l IH] using rev_ind.
  - split; [intros _ e He; inversion He|done].
  - rewrite lastResource_snoc. destruct (p (id (resource e))) eqn:Hp.
    + split; [done|]. intros Hall. rewrite Hall in Hp; [done|].
      apply elem_of_app. right. left.
    + rewrite IH. split.
      * intros Hall e' [He'|He']%elem_of_app; [by apply Hall|].
        by apply list_elem_of_singleton in He' as ->.
      * intros Hall e' He'. apply Hall, elem_of_app. by left.
Qed.

Lemma lastResource_Some p data r :
  Bilingual.lastResource p data = Some r ↔
  ∃ l1 e l2,
    entry data = l1 ++ e :: l2 ∧ resource e = r ∧ p (id r) = true ∧
    ∀ e', e' ∈ l2 → p (id (resource e')) = false.
Proof.
  split.
  - destruct data as [v l]. simpl. revert r.
    induction l as [|e l IH] using rev_ind; intros r; [done|].
    rewrite lastResource_snoc. destruct (p (id (resource e))) eqn:Hp.
    + intros [= <-]. exists l, e, []. split; [done|]. split; [done|].
      split; [done|]. intros e' He'. inversion He'.
    + intros (l1 & e0 & l2 & -> & <- & Hr & Hlater)%IH.
      exists l1, e0, (l2 ++ [e]). rewrite <- app_assoc. split; [done|].
      split; [done|]. split; [done|].
      intros e' [He'|He']%elem_of_app; [by apply Hlater|].
      by apply list_elem_of_singleton in He' as ->.
  - intros (l1 & e & l2 & Hentry & <- & Hp & Hlater).
    unfold Bilingual.lastResource. rewrite Hentry, fold_left_app. simpl.
    rewrite Hp. clear Hentry.
    induction l2 as [|e2 l2 IH]; simpl; [done|].
    rewrite (Hlater e2) by left. apply IH. intros e' He'. apply Hlater. by right.
Qed.

Lemma isValueSetDisease_iff i : isValueSetDisease i = true ↔ i = "Disease".
Proof.
  unfold isValueSetDisease, includes, JsString.eqb. simpl.
  rewrite orb_false_r. apply bool_decide_eq_true.
Qed.

Lemma isValueSetMAH_iff i : isValueSetMAH i = true ↔ i = "MarketAuthorizationHolder".
Proof.
  unfold isValueSetMAH, includes, JsString.eqb. simpl.
  rewrite orb_false_r. apply bool_decide_eq_true.
Qed.

Lemma lastResource_lastWithId p i data r :
  (∀ j, p j = true ↔ j = i) →
  Bilingual.lastResource p data = Some r ↔ lastWithId i data r.
Proof.
  intros Hp. rewrite lastResource_Some. unfold lastWithId.
  assert (Hfalse : ∀ j, p j = false ↔ j ≠ i).
  { intros j. rewrite <- Hp. by destruct (p j). }
  split; intros (l1 & e & l2 & ? & ? & ? & Hlater); exists l1, e, l2;
    (split; [done|]); (split; [done|]); (split; [by apply Hp|]);
    intros e' He'; apply Hfalse; by apply Hlater.
Qed.

(** X12: the resource [main] takes for the disease lookup is the value set
    of the last entry with id [Disease], and the one it takes for the MAH
    lookup that of the last entry with id [MarketAuthorizationHolder]; none
    is taken exactly when no entry has that id.  Such a resource is never
    one of the value sets the flattener turns into rows. *)
Theorem lastResource_picks_last data :
  (∀ r, Bilingual.lastResource isValueSetDisease data = Some r
        ↔ lastWithId "Disease" data r) ∧
  (∀ r, Bilingual.lastResource isValueSetMAH data = Some r
        ↔ lastWithId "MarketAuthorizationHolder" data r) ∧
  (Bilingual.lastResource isValueSetDisease data = None
   ↔ ∀ e, e ∈ entry data → id (resource e) ≠ "Disease") ∧
  (Bilingual.lastResource isValueSetMAH data = None
   ↔ ∀ e, e ∈ entry data → id (resource e) ≠ "MarketAuthorizationHolder") ∧
  (∀ r, Bilingual.lastResource isValueSetDisease data = Some r
        ∨ Bilingual.lastResource isValueSetMAH data = Some r →
        isValueSet (id r) = false).
Proof.
  assert (Hfalse : ∀ (p : string → bool) i, (∀ j, p j = true ↔ j = i) →
                   ∀ j, p j = false ↔ j ≠ i).
  { intros p i Hp j. rewrite <- Hp. by destruct (p j). }
  split; [|split; [|split; [|split]]].
  - intros r. apply lastResource_lastWithId, isValueSetDisease_iff.
  - intros r. apply lastResource_lastWithId, isValueSetMAH_iff.
  - rewrite lastResource_None.
    by setoid_rewrite (Hfalse _ _ isValueSetDisease_iff).
  - rewrite lastResource_None.
    by setoid_rewrite (Hfalse _ _ isValueSetMAH_iff).
  - intros r [Hr|Hr].
    + apply (lastResource_lastWithId _ "Disease") in Hr;
        [|apply isValueSetDisease_iff].
      destruct Hr as (_ & _ & _ & _ & _ & Hid & _). by rewrite Hid.
    + apply (lastResource_lastWithId _ "MarketAuthorizationHolder") in Hr;
        [|apply isValueSetMAH_iff].
      destruct Hr as (_ & _ & _ & _ & _ & Hid & _). by rewrite Hid.
Qed.

Lemma lastResource_picks_last_witness :
  isValueSet (id (mkValueSet "Disease" (Some disease_compose))) = false.
Proof.
  apply (proj2 (proj2 (proj2 (proj2 (lastResource_picks_last bundle_complete))))).
  left. vm_compute. reflexivity.
Defined.

(** ** The runs *)

Lemma main_run env data w :
  Bilingual.main env (Ok data) w =
  match writeLookupFiles data (mkWorld (files w) (console w ++ [receivedIds data])) with
  | (Ok _, w1) =>
      io_catch (mainAfterWrites env data (Bilingual.lastResource isValueSetMAH data))
        (λ message, emit (ConsoleError ("Error: " ++ message))) w1
  | (Throw e, w1) => (Ok tt, reported e w1)
  end.
Proof.
  rewrite main_split, io_catch_bind. unfold emit at 1.
  fold (receivedIds data). set (w0 := mkWorld _ _).
  rewrite io_catch_bind. unfold writeLookupFiles, io_bind.
  destruct (match Bilingual.lastResource isValueSetDisease data with
            | Some r => Bilingual.writeCompose diseaseFilePath r
            | None => io_ret tt
            end w0) as [[[]|e] w1]; [|done].
  unfold io_catch.
  by destruct (match Bilingual.lastResource isValueSetMAH data with
               | Some r => Bilingual.writeCompose mahFilePath r
               | None => io_ret tt
               end w1) as [[[]|e] w2].
Qed.


(** When every lookup resource of the bundle has its [compose], the writes
    succeed. *)
Lemma writeLookupFiles_ok data w :
  (∀ r, Bilingual.lastResource isValueSetDisease data = Some r → is_Some (compose r)) →
  (∀ r, Bilingual.lastResource isValueSetMAH data = Some r → is_Some (compose r)) →
  writeLookupFiles data w = (Ok tt, mkWorld (lookupsWritten data (files w)) (console w)).
Proof.
  intros Hd Hm. unfold writeLookupFiles, lookupsWritten, io_bind, io_ret.
  destruct w as [fs out]. simpl.
  destruct (Bilingual.lastResource isValueSetDisease data) as [rd|]; simpl.
  - destruct (Hd rd eq_refl) as [cd Hcd]. rewrite writeCompose_run, Hcd. simpl.
    destruct (Bilingual.lastResource isValueSetMAH data) as [rm|]; simpl; [|done].
    destruct (Hm rm eq_refl) as [cm Hcm]. by rewrite writeCompose_run, Hcm.
  - destruct (Bilingual.lastResource isValueSetMAH data) as [rm|]; simpl; [|done].
    destruct (Hm rm eq_refl) as [cm Hcm]. by rewrite writeCompose_run, Hcm.
Qed.

(** The MAH lookup a run builds, and what it logs. *)
Lemma buildMahLookup_value r w :
  ∃ lines,
    Bilingual.buildMahLookup r w
    = (Ok (mahLookupFrom r (files w)), mkWorld (files w) (console w ++ lines)) ∧
    match r with
    | Some _ =>
        match storedLookup mahFilePath (files w) with
        | Ok _ => lines = []
        | Throw e => lines = [ConsoleError ("Error reading MAH data: " ++ e)]
        end
    | None => lines = []
    end.
Proof.
  destruct w as [fs out]. unfold mahLookupFrom. destruct r as [v|]; simpl.
  - unfold io_catch. rewrite readLookup_run. simpl.
    destruct (storedLookup mahFilePath fs) as [ml|e].
    + exists []. by rewrite app_nil_r.
    + eexists. split; [|done]. done.
  - exists []. unfold io_ret. by rewrite app_nil_r.
Qed.

Lemma main_tail_value env data r w :
  ∃ lines,
    io_catch (mainAfterWrites env data r)
      (λ message, emit (ConsoleError ("Error: " ++ message))) w =
    match storedLookup diseaseFilePath (files w) with
    | Throw e => (Ok tt, reported e w)
    | Ok dl =>
        match Bilingual.parseNVCBundle (Bilingual.API_URL env) data dl
                (mahLookupFrom r (files w)) with
        | Throw e => (Ok tt, reported e (mkWorld (files w) (console w ++ lines)))
        | Ok table =>
            (Ok tt,
             mkWorld (published (versionId data) table (files w))
                     ((console w ++ lines)
                      ++ [ConsoleInfo ("Successfully updated! current version is: "
                                       ++ versionId data)]))
        end
    end ∧
    match r with
    | Some _ =>
        match storedLookup mahFilePath (files w) with
        | Ok _ => lines = []
        | Throw e => lines = [ConsoleError ("Error reading MAH data: " ++ e)]
        end
    | None => lines = []
    end.
Proof.
  destruct (buildMahLookup_value r w) as (lines & Hml & Hlines).
  exists lines. split; [|done].
  rewrite catch_report. unfold mainAfterWrites, io_bind. rewrite readLookup_run.
  destruct (storedLookup diseaseFilePath (files w)) as [dl|e]; [|done].
  rewrite Hml. unfold io_lift.
  by destruct (Bilingual.parseNVCBundle _ _ _ _).
Qed.

Lemma lookupsWritten_disease data fs rd cd :
  Bilingual.lastResource isValueSetDisease data = Some rd → compose rd = Some cd →
  storedLookup diseaseFilePath (lookupsWritten data fs) = Bilingual.buildLookup cd.
Proof.
  intros Hd Hcd. unfold lookupsWritten. rewrite Hd. simpl. rewrite Hcd.
  destruct (_ ≫= compose).
  - rewrite storedLookup_insert_ne by auto with paths. apply storedLookup_written.
  - apply storedLookup_written.
Qed.

Lemma lookupsWritten_mah data fs rm cm :
  Bilingual.lastResource isValueSetMAH data = Some rm → compose rm = Some cm →
  storedLookup mahFilePath (lookupsWritten data fs) = Bilingual.buildLookup cm.
Proof.
  intros Hm Hcm. unfold lookupsWritten. rewrite Hm. simpl. rewrite Hcm.
  apply storedLookup_written.
Qed.

Lemma lookupsWritten_other data fs p :
  p ≠ diseaseFilePath → p ≠ mahFilePath → lookupsWritten data fs !! p = fs !! p.
Proof.
  intros Hd Hm. unfold lookupsWritten.
  destruct (_ ≫= compose); destruct (_ ≫= compose); by rewrite ?lookup_insert_ne.
Qed.

(** The run of the bilingual variant on a bundle that has a usable Disease
    resource. *)
Lemma main_success_run env data w rd cd dl :
  Bilingual.lastResource isValueSetDisease data = Some rd →
  compose rd = Some cd →
  Bilingual.buildLookup cd = Ok dl →
  (∀ rm, Bilingual.lastResource isValueSetMAH data = Some rm → is_Some (compose rm)) →
  wellFormed data →
  ∃ table lines,
    Bilingual.parseNVCBundle (Bilingual.API_URL env) data dl
      (mahLookupFrom (Bilingual.lastResource isValueSetMAH data)
         (lookupsWritten data (files w))) = Ok table ∧
    Bilingual.main env (Ok data) w
    = (Ok tt,
       mkWorld (published (versionId data) table (lookupsWritten data (files w)))
         (((console w ++ [receivedIds data]) ++ lines)
          ++ [ConsoleInfo ("Successfully updated! current version is: "
                           ++ versionId data)])) ∧
    match Bilingual.lastResource isValueSetMAH data with
    | Some _ =>
        match storedLookup mahFilePath (lookupsWritten data (files w)) with
        | Ok _ => lines = []
        | Throw e => lines = [ConsoleError ("Error reading MAH data: " ++ e)]
        end
    | None => lines = []
    end.
Proof.
  intros Hd Hcd Hdl Hm Hwf.
  rewrite main_run, writeLookupFiles_ok; [|intros r; rewrite Hd; intros [= <-]; eauto|done].
  simpl.
  destruct (main_tail_value env data (Bilingual.lastResource isValueSetMAH data)
              (mkWorld (lookupsWritten data (files w))
                       (console w ++ [receivedIds data])))
    as (lines & -> & Hlines).
  simpl. rewrite (lookupsWritten_disease data _ rd cd Hd Hcd), Hdl.
  rewrite bilingual_parseNVCBundle_storeAll by done.
  eexists _, lines. split; [done|]. split; [done|]. exact Hlines.
Qed.

(** X13: on a bundle with a Disease resource from which the lookup can be
    built, and whose MAH resource, if any, has its [compose], the run of the
    bilingual variant on a well-formed bundle ends without an error: it
    writes the lookup files, then the table built with the lookups read back
    from them, and the version marker. *)
Theorem main_success env data w rd cd dl :
  Bilingual.lastResource isValueSetDisease data = Some rd →
  compose rd = Some cd →
  Bilingual.buildLookup cd = Ok dl →
  (∀ rm, Bilingual.lastResource isValueSetMAH data = Some rm → is_Some (compose rm)) →
  wellFormed data →
  ∃ ml table w',
    Bilingual.main env (Ok data) w = (Ok tt, w') ∧
    Bilingual.parseNVCBundle (Bilingual.API_URL env) data dl ml = Ok table ∧
    files w' = published (versionId data) table (lookupsWritten data (files w)) ∧
    files w' !! diseaseFilePath = Some (DocCompose cd) ∧
    (Bilingual.lastResource isValueSetMAH data = None → ml = ∅) ∧
    (∀ rm cm, Bilingual.lastResource isValueSetMAH data = Some rm →
              compose rm = Some cm →
              files w' !! mahFilePath = Some (DocCompose cm) ∧
              ml = match Bilingual.buildLookup cm with
                   | Ok lookup => lookup
                   | Throw _ => ∅
                   end) ∧
    last (console w')
    = Some (ConsoleInfo ("Successfully updated! current version is: "
                         ++ versionId data)).
Proof.
  intros Hd Hcd Hdl Hm Hwf.
  destruct (main_success_run env data w rd cd dl Hd Hcd Hdl Hm Hwf)
    as (table & lines & Hparse & Hmain & _).
  eexists _, table, _. split; [exact Hmain|]. split; [exact Hparse|].
  simpl. split; [done|]. split; [|split; [|split]].
  - unfold published. lookup_paths.
    pose proof (lookupsWritten_disease data (files w) rd cd Hd Hcd) as Hs.
    unfold storedLookup in Hs. unfold lookupsWritten in *.
    rewrite Hd in *. simpl in *. rewrite Hcd in *.
    destruct (_ ≫= compose); by lookup_paths.
  - intros Hnone. by rewrite Hnone.
  - intros rm cm Hrm Hcm. split.
    + unfold published. lookup_paths. unfold lookupsWritten. rewrite Hrm. simpl.
      rewrite Hcm. by lookup_paths.
    + rewrite Hrm. unfold mahLookupFrom.
      by rewrite (lookupsWritten_mah data _ rm cm Hrm Hcm).
  - by rewrite last_snoc.
Qed.

Lemma bundle_complete_wellFormed : wellFormed bundle_complete.
Proof. solve_wellFormed. Defined.

Lemma bundle_bad_mah_wellFormed : wellFormed bundle_bad_mah.
Proof. solve_wellFormed. Defined.

Lemma main_success_witness :
  ∃ ml table w',
    Bilingual.main None (Ok bundle_complete) fresh_world = (Ok tt, w') ∧
    Bilingual.parseNVCBundle prod_url bundle_complete
      {[ "D1" := Bilingual.mkNames "Measles" "Rougeole" ]} ml = Ok table ∧
    files w' !! diseaseFilePath = Some (DocCompose disease_compose).
Proof.
  destruct (main_success None bundle_complete fresh_world
              (mkValueSet "Disease" (Some disease_compose)) disease_compose
              {[ "D1" := Bilingual.mkNames "Measles" "Rougeole" ]})
    as (ml & table & w' & Hmain & Hparse & _ & Hdisease & _).
  - vm_compute. reflexivity.
  - reflexivity.
  - vm_compute. reflexivity.
  - intros rm Hrm. vm_compute in Hrm. injection Hrm as <-. eexists. reflexivity.
  - exact bundle_complete_wellFormed.
  - exists ml, table, w'. split; [exact Hmain|]. split; [exact Hparse|exact Hdisease].
Defined.

Lemma published_lookupsWritten_again data v table fs :
  published v table (lookupsWritten data (published v table (lookupsWritten data fs)))
  = published v table (lookupsWritten data fs).
Proof.
  apply map_eq. intros p. unfold published, lookupsWritten.
  destruct (_ ≫= compose) as [cd|]; destruct (_ ≫= compose) as [cm|];
    rewrite !lookup_insert; repeat case_decide; subst; done.
Qed.

(** X14: a second run of the bilingual variant on the same bundle, after a
    run that succeeded, ends without an error and leaves every file as the
    first run wrote it. *)
Theorem main_rerun env data w rd cd dl :
  Bilingual.lastResource isValueSetDisease data = Some rd →
  compose rd = Some cd →
  Bilingual.buildLookup cd = Ok dl →
  (∀ rm, Bilingual.lastResource isValueSetMAH data = Some rm → is_Some (compose rm)) →
  wellFormed data →
  ∃ w1 w2,
    Bilingual.main env (Ok data) w = (Ok tt, w1) ∧
    Bilingual.main env (Ok data) w1 = (Ok tt, w2) ∧
    files w2 = files w1 ∧
    last (console w2)
    = Some (ConsoleInfo ("Successfully updated! current version is: "
                         ++ versionId data)).
Proof.
  intros Hd Hcd Hdl Hm Hwf.
  destruct (main_success_run env data w rd cd dl Hd Hcd Hdl Hm Hwf)
    as (table & lines & Hparse & Hmain & _).
  set (w1 := mkWorld _ _) in Hmain.
  destruct (main_success_run env data w1 rd cd dl Hd Hcd Hdl Hm Hwf)
    as (table' & lines' & Hparse' & Hmain' & _).
  eexists w1, _. split; [exact Hmain|].
  split; [exact Hmain'|]. simpl.
  assert (table' = table) as ->.
  { rewrite bilingual_parseNVCBundle_storeAll in Hparse, Hparse' by done.
    injection Hparse as <-. injection Hparse' as <-.
    f_equal. f_equal. unfold mahLookupFrom.
    destruct (Bilingual.lastResource isValueSetMAH data) as [rm|] eqn:Hrm; [|done].
    destruct (Hm rm eq_refl) as [cm Hcm].
    by rewrite !(lookupsWritten_mah data _ rm cm Hrm Hcm). }
  split; [apply published_lookupsWritten_again|by rewrite last_snoc].
Qed.

Lemma main_rerun_witness :
  ∃ w1 w2,
    Bilingual.main None (Ok bundle_complete) fresh_world = (Ok tt, w1) ∧
    Bilingual.main None (Ok bundle_complete) w1 = (Ok tt, w2) ∧
    files w2 = files w1.
Proof.
  destruct (main_rerun None bundle_complete fresh_world
              (mkValueSet "Disease" (Some disease_compose)) disease_compose
              {[ "D1" := Bilingual.mkNames "Measles" "Rougeole" ]})
    as (w1 & w2 & H1 & H2 & Hsame & _).
  - vm_compute. reflexivity.
  - reflexivity.
  - vm_compute. reflexivity.
  - intros rm Hrm. vm_compute in Hrm. injection Hrm as <-. eexists. reflexivity.
  - exact bundle_complete_wellFormed.
  - exists w1, w2. split; [exact H1|]. split; [exact H2|exact Hsame].
Defined.

(** X15: a MAH resource from which no lookup can be built does not stop the
    run: its file is written, the failure to read it back is logged as an
    error of its own, and the table is built with the empty MAH lookup and
    written with the version marker. *)
Theorem main_mah_unusable env data w rd cd dl rm cm e :
  Bilingual.lastResource isValueSetDisease data = Some rd →
  compose rd = Some cd →
  Bilingual.buildLookup cd = Ok dl →
  Bilingual.lastResource isValueSetMAH data = Some rm →
  compose rm = Some cm →
  Bilingual.buildLookup cm = Throw e →
  wellFormed data →
  ∃ table w',
    Bilingual.main env (Ok data) w = (Ok tt, w') ∧
    Bilingual.parseNVCBundle (Bilingual.API_URL env) data dl ∅ = Ok table ∧
    files w' = published (versionId data) table (lookupsWritten data (files w)) ∧
    files w' !! mahFilePath = Some (DocCompose cm) ∧
    console w'
    = console w ++ [receivedIds data;
                    ConsoleError ("Error reading MAH data: " ++ e);
                    ConsoleInfo ("Successfully updated! current version is: "
                                 ++ versionId data)].
Proof.
  intros Hd Hcd Hdl Hrm Hcm He Hwf.
  destruct (main_success_run env data w rd cd dl Hd Hcd Hdl) as
    (table & lines & Hparse & Hmain & Hlines); [|done|].
  { intros r. rewrite Hrm. intros [= <-]. eauto. }
  rewrite Hrm in Hparse, Hlines. unfold mahLookupFrom in Hparse.
  rewrite (lookupsWritten_mah data _ rm cm Hrm Hcm), He in Hparse, Hlines.
  subst lines.
  eexists table, _. split; [exact Hmain|]. split; [exact Hparse|]. simpl.
  split; [done|]. split.
  - unfold published. lookup_paths. unfold lookupsWritten. rewrite Hrm. simpl.
    rewrite Hcm. by lookup_paths.
  - by rewrite <- !app_assoc.
Qed.

Lemma main_mah_unusable_witness :
  ∃ table w',
    Bilingual.main None (Ok bundle_bad_mah) fresh_world = (Ok tt, w') ∧
    Bilingual.parseNVCBundle prod_url bundle_bad_mah
      {[ "D1" := Bilingual.mkNames "Measles" "Rougeole" ]} ∅ = Ok table ∧
    files w' !! mahFilePath = Some (DocCompose (mkCompose None)).
Proof.
  destruct (main_mah_unusable None bundle_bad_mah fresh_world
              (mkValueSet "Disease" (Some disease_compose)) disease_compose
              {[ "D1" := Bilingual.mkNames "Measles" "Rougeole" ]}
              (mkValueSet "MarketAuthorizationHolder" (Some (mkCompose None)))
              (mkCompose None) forEachOfUndefined)
    as (table & w' & Hmain & Hparse & _ & Hmah & _).
  - vm_compute. reflexivity.
  - reflexivity.
  - vm_compute. reflexivity.
  - vm_compute. reflexivity.
  - reflexivity.
  - reflexivity.
  - exact bundle_bad_mah_wellFormed.
  - exists table, w'. split; [exact Hmain|]. split; [exact Hparse|exact Hmah].
Defined.

(** X16: a Disease resource from which no lookup can be built stops the run
    after its file was written: [disease.json] then holds the unusable
    structure, the table file and the version marker are left as they were,
    and the error is reported. *)
Theorem main_disease_unusable env data w rd cd e :
  Bilingual.lastResource isValueSetDisease data = Some rd →
  compose rd = Some cd →
  Bilingual.buildLookup cd = Throw e →
  (∀ rm, Bilingual.lastResource isValueSetMAH data = Some rm → is_Some (compose rm)) →
  ∃ w',
    Bilingual.main env (Ok data) w = (Ok tt, w') ∧
    files w' = lookupsWritten data (files w) ∧
    files w' !! diseaseFilePath = Some (DocCompose cd) ∧
    files w' !! bundleFilePath = files w !! bundleFilePath ∧
    files w' !! versionFilePath = files w !! versionFilePath ∧
    console w' = console w ++ [receivedIds data; ConsoleError ("Error: " ++ e)].
Proof.
  intros Hd Hcd He Hm.
  rewrite main_run, writeLookupFiles_ok; [|intros r; rewrite Hd; intros [= <-]; eauto|done].
  simpl.
  destruct (main_tail_value env data (Bilingual.lastResource isValueSetMAH data)
              (mkWorld (lookupsWritten data (files w))
                       (console w ++ [receivedIds data])))
    as (lines & -> & _).
  simpl. pose proof (lookupsWritten_disease data (files w) rd cd Hd Hcd) as Hs.
  rewrite Hs, He. eexists. split; [done|]. simpl. split; [done|].
  split; [|split; [|split]].
  - unfold storedLookup in Hs. unfold lookupsWritten in *.
    rewrite Hd in *. simpl in *. rewrite Hcd in *.
    destruct (_ ≫= compose); by lookup_paths.
  - apply lookupsWritten_other; auto with paths.
  - apply lookupsWritten_other; auto with paths.
  - by rewrite <- app_assoc.
Qed.

Lemma main_disease_unusable_witness :
  ∃ w',
    Bilingual.main None (Ok bundle_bad_disease) fresh_world = (Ok tt, w') ∧
    files w' !! diseaseFilePath = Some (DocCompose (mkCompose None)) ∧
    files w' !! bundleFilePath = None.
Proof.
  destruct (main_disease_unusable None bundle_bad_disease fresh_world
              (mkValueSet "Disease" (Some (mkCompose None))) (mkCompose None)
              forEachOfUndefined)
    as (w' & Hmain & _ & Hdisease & Hbundle & _).
  - vm_compute. reflexivity.
  - reflexivity.
  - reflexivity.
  - intros rm Hrm. vm_compute in Hrm. discriminate Hrm.
  - exists w'. split; [exact Hmain|]. split; [exact Hdisease|exact Hbundle].
Defined.


(** ** The runs of the single-language variant *)

Lemma storedVersion_files w w' :
  files w' = files w → storedVersion w' = storedVersion w.
Proof. unfold storedVersion. by intros ->. Qed.

(** The files a run of the single-language variant leaves. *)
Lemma simple_main_run data w :
  ∃ w',
    Simple.main (Ok data) w = (Ok tt, w') ∧
    files w'
    = (if decide (storedVersion w = Some (versionId data)) then files w
       else match Simple.parseNVCBundle data with
            | Ok table => published (versionId data) table (files w)
            | Throw _ => files w
            end) ∧
    last (console w')
    = Some (if decide (storedVersion w = Some (versionId data))
            then ConsoleInfo ("No change! current version is: " ++ versionId data)
            else match Simple.parseNVCBundle data with
                 | Ok _ => ConsoleInfo ("Succeessfully updated! current version is: "
                                        ++ versionId data)
                 | Throw e => ConsoleError ("Error: " ++ e)
                 end).
Proof.
  destruct (readCurrentVersion_stored w) as [lines Hread].
  unfold Simple.main, io_catch, io_bind, io_lift. rewrite Hread.
  case_bool_decide as Hver.
  - rewrite !decide_False by done.
    destruct (Simple.parseNVCBundle data) as [table|e]; unfold writeFile, emit; simpl.
    + eexists. split; [done|]. simpl. unfold published. split; [done|].
      by rewrite last_snoc.
    + eexists. split; [done|]. simpl. split; [done|]. by rewrite last_snoc.
  - rewrite !decide_True by done. unfold emit. simpl.
    eexists. split; [done|]. simpl. split; [done|by rewrite last_snoc, Hver].
Qed.


(** X19: running the single-language variant a second time on the same
    bundle changes no file, whatever the first run did; when the first run
    wrote the table, or the version was already the stored one, the second
    run reports no change. *)
Theorem simple_main_rerun data w :
  ∃ w1 w2,
    Simple.main (Ok data) w = (Ok tt, w1) ∧
    Simple.main (Ok data) w1 = (Ok tt, w2) ∧
    files w2 = files w1 ∧
    (wellFormed data ∨ storedVersion w = Some (versionId data) →
     last (console w2)
     = Some (ConsoleInfo ("No change! current version is: " ++ versionId data))).
Proof.
  destruct (simple_main_run data w) as (w1 & Hmain1 & Hfiles1 & _).
  destruct (simple_main_run data w1) as (w2 & Hmain2 & Hfiles2 & Hlast2).
  exists w1, w2. split; [done|]. split; [done|].
  destruct (decide (storedVersion w = Some (versionId data))) as [Hver|Hver].
  - (* already the stored version *)
    assert (Hstored : storedVersion w1 = Some (versionId data)).
    { by rewrite (storedVersion_files w w1). }
    rewrite decide_True in Hfiles2 by done.
      rewrite decide_True in Hlast2 by done. done.
  - destruct (Simple.parseNVCBundle data) as [table|e] eqn:Hparse.
    + (* the first run wrote the table *)
      assert (Hstored : storedVersion w1 = Some (versionId data)).
      { unfold storedVersion. rewrite Hfiles1. unfold published.
        by rewrite lookup_insert_eq. }
      rewrite decide_True in Hfiles2 by done.
      rewrite decide_True in Hlast2 by done. done.
    + (* the flattener threw: nothing was written, and nothing is *)
      assert (Hstored : storedVersion w1 ≠ Some (versionId data)).
      { by rewrite (storedVersion_files w w1). }
      rewrite !decide_False in Hfiles2 by done. split; [done|].
      intros [Hwf|Hsame]; [|done].
      by rewrite simple_parseNVCBundle_storeAll in Hparse.
Qed.

Lemma simple_main_rerun_witness :
  ∃ w1 w2,
    Simple.main (Ok bundle_with_repeat) fresh_world = (Ok tt, w1) ∧
    Simple.main (Ok bundle_with_repeat) w1 = (Ok tt, w2) ∧
    files w2 = files w1 ∧
    last (console w2)
    = Some (ConsoleInfo "No change! current version is: 2024-02").
Proof.
  destruct (simple_main_rerun bundle_with_repeat fresh_world)
    as (w1 & w2 & H1 & H2 & Hsame & Hlast).
  exists w1, w2. split; [exact H1|]. split; [exact H2|]. split; [exact Hsame|].
  apply Hlast. left. exact bundle_with_repeat_wellFormed.
Defined.
